(** * LForms.Validations: a shallow embedding of [lforms-validate.js]

    The validation module of the form renderer is three functions,
    [checkRequired], [checkDataType] and [checkRestrictions], which inspect a
    user value and push human readable messages onto an array supplied by the
    caller.  They are written against the JavaScript host: loose values,
    [parseFloat]/[parseInt], IEEE doubles, string conversion, [RegExp].

    The development has four layers, followed by their properties:
    - [JS]: the fragment of the host the module relies on (values, numbers
      as binary64, conversions, [split]);
    - [RegExp]: pattern syntax, the constructor and [test];
    - [Validations]: the module itself, in a state-and-exception monad over
      the caller's array and the module's own tables;
    - [Spec]: the notions the specification uses, stated over the model.

    Strings are [String.string]; one [ascii] stands for one UTF-16 code unit
    below 256.  Objects are plain data records (own string-keyed properties,
    default string conversion); there are no functions among the values. *)

From Stdlib Require Import ZArith NArith List String Ascii Bool Lia.
From Stdlib Require Import Floats.SpecFloat DecimalString.
Import ListNotations.

Set Implicit Arguments.
Set Warnings "-register-all".

(** ** Characters and strings *)

Module JS.

Definition chars := list ascii.

Definition code (c : ascii) : N := N_of_ascii c.

Definition in_range (lo hi c : ascii) : bool :=
  (code lo <=? code c)%N && (code c <=? code hi)%N.

Definition is_digit (c : ascii) : bool := in_range "0" "9" c.

(** WhiteSpace and LineTerminator code units below 256: TAB, LF, VT, FF, CR,
    SP and NBSP. *)
Definition is_space (c : ascii) : bool :=
  let n := code c in
  ((9 <=? n) && (n <=? 13) || (n =? 32) || (n =? 160))%N.

Definition digit_val (c : ascii) : Z := Z.of_N (code c) - 48.

Fixpoint take_while (p : ascii -> bool) (s : chars) : chars :=
  match s with
  | c :: s' => if p c then c :: take_while p s' else []
  | [] => []
  end.

Fixpoint drop_while (p : ascii -> bool) (s : chars) : chars :=
  match s with
  | c :: s' => if p c then drop_while p s' else s
  | [] => []
  end.

Definition trim_start (s : chars) : chars := drop_while is_space s.

Definition trim (s : chars) : chars :=
  rev (drop_while is_space (rev (drop_while is_space s))).

Fixpoint starts_with (p s : chars) : bool :=
  match p, s with
  | [], _ => true
  | a :: p', b :: s' => Ascii.eqb a b && starts_with p' s'
  | _ :: _, [] => false
  end.

Definition str (s : string) : chars := list_ascii_of_string s.
Definition unstr (s : chars) : string := string_of_list_ascii s.

(** The value of a digit string in base [r], most significant digit first. *)
Definition digits_val (r : Z) (dv : ascii -> Z) (s : chars) : Z :=
  fold_left (fun acc c => acc * r + dv c)%Z s 0%Z.

(** ** Numbers: IEEE 754 binary64 *)

Definition Number := spec_float.

Definition prec : Z := 53.
Definition emax : Z := 1024.

Definition NaN : Number := S754_nan.
Definition Infinity (neg : bool) : Number := S754_infinity neg.

(** The double nearest to [n / d] (ties to even), with sign [neg]. *)
Definition of_ratio (neg : bool) (n : Z) (d : positive) : Number :=
  match n with
  | Zpos p =>
      let '(q, e, l) := SFdiv_core_binary prec emax (Zpos p) 0 (Zpos d) 0 in
      binary_round_aux prec emax neg q e l
  | _ => S754_zero neg
  end.

(** The double nearest to [m * 10 ^ e]. *)
Definition of_decimal (neg : bool) (m e : Z) : Number :=
  if (0 <=? e)%Z then of_ratio neg (m * 10 ^ e) 1
  else of_ratio neg m (Z.to_pos (10 ^ (- e))).

Definition of_Z (z : Z) : Number :=
  of_ratio (z <? 0)%Z (Z.abs z) 1.

Definition of_nat (n : nat) : Number := of_Z (Z.of_nat n).


(** The relational operators on numbers; every comparison with NaN is
    false. *)
Definition lt (a b : Number) : bool := SFltb a b.
Definition le (a b : Number) : bool := SFleb a b.
Definition gt (a b : Number) : bool := SFltb b a.
Definition ge (a b : Number) : bool := SFleb b a.
Definition num_eq (a b : Number) : bool := SFeqb a b.

(** A term of [spec_float] need not be a normalised double; [canon] is the
    double it denotes. *)
Definition canon (x : Number) : Number :=
  match x with
  | S754_finite s m e => binary_round prec emax s m e
  | _ => x
  end.

Definition same (a b : Number) : bool :=
  match a, b with
  | S754_finite s1 m1 e1, S754_finite s2 m2 e2 =>
      Bool.eqb s1 s2 && Pos.eqb m1 m2 && Z.eqb e1 e2
  | S754_zero s1, S754_zero s2 => Bool.eqb s1 s2
  | S754_infinity s1, S754_infinity s2 => Bool.eqb s1 s2
  | S754_nan, S754_nan => true
  | _, _ => false
  end.

(** *** Number::toString (radix 10)

    The digits are the shortest decimal [s * 10 ^ (n - k)] that reads back as
    the same double; among several, the one nearest to the exact value. *)

Local Open Scope Z_scope.

Definition dec (z : Z) : chars :=
  str (NilZero.string_of_uint (N.to_uint (Z.to_N z))).

Definition below_pow10 (num den n : Z) : bool :=
  if 0 <=? n then num <? 10 ^ n * den else num * 10 ^ (- n) <? den.

Fixpoint magnitude_from (fuel : nat) (num den n : Z) : Z :=
  match fuel with
  | O => n
  | S f => if below_pow10 num den n then n
           else magnitude_from f num den (n + 1)
  end.

(** The [n] with [10 ^ (n - 1) <= num / den < 10 ^ n], for a double's exact
    value. *)
Definition magnitude (num den : Z) : Z := magnitude_from 700 num den (-330).

Definition digits_at (x : Number) (num den n k : Z) : option (Z * Z) :=
  let e := n - k in
  let '(a, b) := if 0 <=? e then (num, den * 10 ^ e)
                 else (num * 10 ^ (- e), den) in
  let lo := a / b in
  let hi := lo + 1 in
  let ok c := same (of_decimal false c e) x in
  let pick :=
    match ok lo, ok hi with
    | true, true =>
        match 2 * a ?= (2 * lo + 1) * b with
        | Lt => Some lo
        | Gt => Some hi
        | Eq => Some (if Z.even lo then lo else hi)
        end
    | true, false => Some lo
    | false, true => Some hi
    | false, false => None
    end in
  match pick with
  | Some c => if c =? 10 ^ k then Some (10 ^ (k - 1), n + 1) else Some (c, n)
  | None => None
  end.

Fixpoint shortest_from (fuel : nat) (x : Number) (num den n k : Z)
  : Z * Z :=
  match fuel with
  | O => (num * 10 ^ 17 / (den * 10 ^ n), n)
  | S f =>
      match digits_at x num den n k with
      | Some r => r
      | None => shortest_from f x num den n (k + 1)
      end
  end.

Definition zeros (n : Z) : chars := repeat "0"%char (Z.to_nat n).

Definition format_digits (ds : chars) (n : Z) : chars :=
  let k := Z.of_nat (List.length ds) in
  if (k <=? n) && (n <=? 21) then ds ++ zeros (n - k)
  else if (0 <? n) && (n <=? 21) then
    firstn (Z.to_nat n) ds ++ "."%char :: skipn (Z.to_nat n) ds
  else if (-6 <? n) && (n <=? 0) then
    "0"%char :: "."%char :: zeros (- n) ++ ds
  else
    let e := n - 1 in
    let es := (if e <? 0 then "-"%char else "+"%char) :: dec (Z.abs e) in
    match ds with
    | [] => []
    | [d] => d :: "e"%char :: es
    | d :: rest => d :: "."%char :: rest ++ "e"%char :: es
    end.

Definition Number_toString (x : Number) : string :=
  match canon x with
  | S754_nan => "NaN"
  | S754_zero _ => "0"
  | S754_infinity false => "Infinity"
  | S754_infinity true => "-Infinity"
  | S754_finite s m e =>
      let num := if 0 <=? e then Zpos m * 2 ^ e else Zpos m in
      let den := if 0 <=? e then 1 else 2 ^ (- e) in
      let n := magnitude num den in
      let '(d, n') :=
        shortest_from 17 (S754_finite false m e) num den n 1 in
      unstr ((if s then ["-"%char] else []) ++ format_digits (dec d) n')
  end.

(** *** Reading numbers out of strings *)

Definition signed (s : chars) : bool * chars :=
  match s with
  | "-"%char :: t => (true, t)
  | "+"%char :: t => (false, t)
  | _ => (false, s)
  end.

Definition exponent_part (s : chars) : option (Z * chars) :=
  match s with
  | c :: s1 =>
      if Ascii.eqb c "e" || Ascii.eqb c "E" then
        let '(neg, s2) := signed s1 in
        match take_while is_digit s2 with
        | [] => None
        | ds =>
            let v := digits_val 10 digit_val ds in
            Some (if neg then - v else v, drop_while is_digit s2)
        end
      else None
  | [] => None
  end.

(** The longest prefix of [s] that is a StrUnsignedDecimalLiteral, as a
    number of sign [neg], and what follows it. *)
Definition unsigned_decimal (neg : bool) (s : chars)
  : option (Number * chars) :=
  if starts_with (str "Infinity") s then Some (Infinity neg, skipn 8 s)
  else
    let ip := take_while is_digit s in
    let s1 := drop_while is_digit s in
    let '(fp, s2) :=
      match s1 with
      | "."%char :: t => (take_while is_digit t, drop_while is_digit t)
      | _ => ([], s1)
      end in
    match ip ++ fp with
    | [] => None
    | ds =>
        let '(ex, s3) :=
          match exponent_part s2 with
          | Some (e, r) => (e, r)
          | None => (0, s2)
          end in
        Some (of_decimal neg (digits_val 10 digit_val ds)
                (ex - Z.of_nat (List.length fp)), s3)
    end.

Definition parseFloat_string (s : string) : Number :=
  let '(neg, t) := signed (trim_start (str s)) in
  match unsigned_decimal neg t with
  | Some (x, _) => x
  | None => NaN
  end.

Definition hex_val (c : ascii) : option Z :=
  if is_digit c then Some (digit_val c)
  else if in_range "a" "f" c then Some (Z.of_N (code c) - 87)
  else if in_range "A" "F" c then Some (Z.of_N (code c) - 55)
  else None.

Definition radix_digit (r : Z) (c : ascii) : bool :=
  match hex_val c with Some v => v <? r | None => false end.

Definition radix_val (c : ascii) : Z :=
  match hex_val c with Some v => v | None => 0 end.

(** [parseInt] with no radix argument. *)
Definition parseInt_string (s : string) : Number :=
  let '(neg, t) := signed (trim_start (str s)) in
  let '(r, u) :=
    match t with
    | "0"%char :: x :: u =>
        if Ascii.eqb x "x" || Ascii.eqb x "X" then (16, u) else (10, t)
    | _ => (10, t)
    end in
  match take_while (radix_digit r) u with
  | [] => NaN
  | ds => of_ratio neg (digits_val r radix_val ds) 1
  end.

Definition nondecimal (t : chars) : option Number :=
  match t with
  | "0"%char :: p :: ds =>
      let r := if Ascii.eqb p "x" || Ascii.eqb p "X" then 16
               else if Ascii.eqb p "o" || Ascii.eqb p "O" then 8
               else if Ascii.eqb p "b" || Ascii.eqb p "B" then 2
               else 0 in
      match ds with
      | [] => None
      | _ => if (0 <? r) && forallb (radix_digit r) ds
             then Some (of_ratio false (digits_val r radix_val ds) 1)
             else None
      end
  | _ => None
  end.

(** StringToNumber: the whole trimmed string has to be a numeric literal. *)
Definition StringToNumber (s : string) : Number :=
  match trim (str s) with
  | [] => S754_zero false
  | t =>
      match nondecimal t with
      | Some x => x
      | None =>
          let '(neg, u) := signed t in
          match unsigned_decimal neg u with
          | Some (x, []) => x
          | _ => NaN
          end
      end
  end.

Local Close Scope Z_scope.

(** ** Values *)

Inductive value :=
  | VUndefined
  | VNull
  | VBool (b : bool)
  | VNumber (x : Number)
  | VString (s : string)
  | VArray (elems : list value)
  | VObject (props : list (string * value)).

(** An object is the list of its own properties; a key bound twice reads as
    its first binding. *)
Fixpoint lookup {A : Type} (k : string) (l : list (string * A)) : option A :=
  match l with
  | [] => None
  | (k', v) :: l' => if String.eqb k k' then Some v else lookup k l'
  end.

Definition keys {A : Type} (l : list (string * A)) : list string :=
  map fst l.

Definition or_undefined (o : option value) : value :=
  match o with Some v => v | None => VUndefined end.

(** ToString; an array joins its elements with commas, reading undefined and
    null elements as empty. *)
Fixpoint ToString (v : value) : string :=
  match v with
  | VUndefined => "undefined"
  | VNull => "null"
  | VBool true => "true"
  | VBool false => "false"
  | VNumber x => Number_toString x
  | VString s => s
  | VArray l =>
      (fix join (l : list value) : string :=
         match l with
         | [] => ""
         | e :: l' =>
             let h := match e with
                      | VUndefined | VNull => ""
                      | _ => ToString e
                      end in
             match l' with
             | [] => h
             | _ => h ++ "," ++ join l'
             end
         end) l
  | VObject _ => "[object Object]"
  end%string.

Definition ToNumber (v : value) : Number :=
  match v with
  | VUndefined => NaN
  | VNull => S754_zero false
  | VBool b => if b then of_nat 1 else S754_zero false
  | VNumber x => canon x
  | VString s => StringToNumber s
  | VArray _ | VObject _ => StringToNumber (ToString v)
  end.

Definition parseFloat (v : value) : Number := parseFloat_string (ToString v).
Definition parseInt (v : value) : Number := parseInt_string (ToString v).

(** [v == n], [v <= n] and [v >= n] for a number [n]. *)
Definition loose_eq_number (v : value) (n : Number) : bool :=
  match v with
  | VUndefined | VNull => false
  | _ => num_eq (ToNumber v) n
  end.

Definition loose_le_number (v : value) (n : Number) : bool :=
  le (ToNumber v) n.

Definition loose_ge_number (v : value) (n : Number) : bool :=
  ge (ToNumber v) n.

(** [v.length] for a [v] that is neither undefined nor null. *)
Definition get_length (v : value) : value :=
  match v with
  | VString s => VNumber (of_nat (String.length s))
  | VArray l => VNumber (of_nat (List.length l))
  | VObject props => or_undefined (lookup "length" props)
  | _ => VUndefined
  end.

(** [angular.isObject], [angular.isArray] and strict equality with a string
    literal. *)
Definition isObject (v : value) : bool :=
  match v with VArray _ | VObject _ => true | _ => false end.

Definition isArray (v : value) : bool :=
  match v with VArray _ => true | _ => false end.

(** The elements of an array; [List.length (elements v)] is [v.length] as a
    natural number. *)
Definition elements (v : value) : list value :=
  match v with VArray l => l | _ => [] end.

Definition strict_eq_string (v : value) (s : string) : bool :=
  match v with VString s' => String.eqb s' s | _ => false end.

Definition get_text (v : value) : value :=
  match v with
  | VObject props => or_undefined (lookup "text" props)
  | _ => VUndefined
  end.

(** [v === undefined || v === null || v === ''], the guard of both
    [checkDataType] and [checkRestrictions]. *)
Definition is_blank (v : value) : bool :=
  match v with
  | VUndefined | VNull => true
  | VString s => String.eqb s ""
  | _ => false
  end.

(** String.prototype.split on a one-character separator. *)
Fixpoint split (sep : ascii) (s : chars) : list chars :=
  match s with
  | [] => [[]]
  | c :: s' =>
      if Ascii.eqb c sep then [] :: split sep s'
      else match split sep s' with
           | p :: ps => (c :: p) :: ps
           | [] => [[c]]
           end
  end.

End JS.

(** ** Regular expressions

    The syntax and meaning of patterns without the [u] and [v] flags, for
    the constructs below.  Back references, look-around, named groups and
    the [\c], [\x], [\u], [\k] and octal escapes are outside the fragment:
    the constructor reports them as [Unmodelled], apart from a pattern it
    rejects ([Invalid], a SyntaxError of the host); what the host makes of
    them is a parameter of the module below.  Only whether a match exists
    is modelled, which is what [test] returns. *)

Module RegExp.
Import JS.

Inductive class_escape := EDigit | EWord | ESpace.

Inductive class_item :=
  | IOne (c : ascii)
  | IRange (lo hi : ascii)
  | ISet (positive : bool) (e : class_escape).

(** What consumes exactly one character. *)
Inductive atom :=
  | AChar (c : ascii)
  | ADot
  | AEsc (positive : bool) (e : class_escape)
  | AClass (negated : bool) (items : list class_item).

Inductive regex :=
  | Eps
  | Atom (a : atom)
  | Bol
  | Eol
  | WordB (positive : bool)
  | Seq (r1 r2 : regex)
  | Alt (r1 r2 : regex)
  | Rep (min : nat) (max : option nat) (r : regex).

Record flagset := {
  hasIndices : bool;
  global : bool;
  ignoreCase : bool;
  multiline : bool;
  dotAll : bool;
  sticky : bool
}.

Record RegExpObject := { source : regex; flags : flagset }.

Inductive parsed (A : Type) :=
  | Parsed (a : A)
  | Invalid
  | Unmodelled.
Arguments Invalid {A}.
Arguments Unmodelled {A}.

Definition pbind {A B : Type} (x : parsed A) (f : A -> parsed B)
  : parsed B :=
  match x with
  | Parsed a => f a
  | Invalid => Invalid
  | Unmodelled => Unmodelled
  end.

(** *** Characters *)

Definition is_word (c : ascii) : bool :=
  in_range "a" "z" c || in_range "A" "Z" c || is_digit c || Ascii.eqb c "_".

Definition is_line_terminator (c : ascii) : bool :=
  (code c =? 10)%N || (code c =? 13)%N.

Definition is_lower (c : ascii) : bool :=
  in_range "a" "z" c ||
  ((224 <=? code c)%N && (code c <=? 254)%N && negb (code c =? 247)%N).

Definition is_upper (c : ascii) : bool :=
  in_range "A" "Z" c ||
  ((192 <=? code c)%N && (code c <=? 222)%N && negb (code c =? 215)%N).

Definition to_upper (c : ascii) : ascii :=
  if is_lower c then ascii_of_N (code c - 32) else c.

Definition to_lower (c : ascii) : ascii :=
  if is_upper c then ascii_of_N (code c + 32) else c.

(** Canonicalize, for [ignoreCase]: the upper-case form when that is a single
    code unit of the same range. *)
Definition canonicalize (fl : flagset) (c : ascii) : ascii :=
  if ignoreCase fl then to_upper c else c.

Definition in_escape (e : class_escape) (c : ascii) : bool :=
  match e with
  | EDigit => is_digit c
  | EWord => is_word c
  | ESpace => is_space c
  end.

Definition in_item (it : class_item) (c : ascii) : bool :=
  match it with
  | IOne a => Ascii.eqb a c
  | IRange lo hi => in_range lo hi c
  | ISet pos e => Bool.eqb pos (in_escape e c)
  end.

(** The characters whose canonical form is that of [c]. *)
Definition case_variants (fl : flagset) (c : ascii) : list ascii :=
  if ignoreCase fl then [c; to_upper c; to_lower c] else [c].

Definition atom_match (fl : flagset) (a : atom) (c : ascii) : bool :=
  match a with
  | AChar a => Ascii.eqb (canonicalize fl a) (canonicalize fl c)
  | ADot => dotAll fl || negb (is_line_terminator c)
  | AEsc pos e => Bool.eqb pos (in_escape e c)
  | AClass neg items =>
      xorb neg
        (existsb (fun v => existsb (fun it => in_item it v) items)
           (case_variants fl c))
  end.

(** *** Pattern syntax *)

Definition seq (r1 r2 : regex) : regex :=
  match r2 with
  | Eps => r1
  | _ => Seq r1 r2
  end.

Definition nat_of_digits (ds : chars) : nat :=
  Z.to_nat (digits_val 10 digit_val ds).

(** A braced quantifier [{n}], [{n,}] or [{n,m}] at the head of [s]. *)
Definition braces (s : chars) : option (nat * option nat * chars) :=
  match s with
  | "{"%char :: t =>
      match take_while is_digit t, drop_while is_digit t with
      | [], _ => None
      | ds, "}"%char :: rest =>
          Some (nat_of_digits ds, Some (nat_of_digits ds), rest)
      | ds, ","%char :: "}"%char :: rest =>
          Some (nat_of_digits ds, None, rest)
      | ds, ","%char :: u =>
          match take_while is_digit u, drop_while is_digit u with
          | [], _ => None
          | es, "}"%char :: rest =>
              Some (nat_of_digits ds, Some (nat_of_digits es), rest)
          | _, _ => None
          end
      | _, _ => None
      end
  | _ => None
  end.

Definition skip_lazy (s : chars) : chars :=
  match s with
  | "?"%char :: t => t
  | _ => s
  end.

(** The quantifier that follows an atom [r], if there is one. *)
Definition quantified (r : regex) (s : chars) : parsed (regex * chars) :=
  match s with
  | "*"%char :: t => Parsed (Rep 0 None r, skip_lazy t)
  | "+"%char :: t => Parsed (Rep 1 None r, skip_lazy t)
  | "?"%char :: t => Parsed (Rep 0 (Some 1) r, skip_lazy t)
  | _ =>
      match braces s with
      | Some (mn, mx, t) =>
          match mx with
          | Some m => if (m <? mn)%nat then Invalid
                      else Parsed (Rep mn mx r, skip_lazy t)
          | None => Parsed (Rep mn mx r, skip_lazy t)
          end
      | None => Parsed (r, s)
      end
  end.

Definition is_alnum (c : ascii) : bool :=
  in_range "a" "z" c || in_range "A" "Z" c || is_digit c.

(** The control escapes [\t \n \v \f \r]. *)
Definition control_escape (c : ascii) : option ascii :=
  if Ascii.eqb c "t" then Some (ascii_of_N 9)
  else if Ascii.eqb c "n" then Some (ascii_of_N 10)
  else if Ascii.eqb c "v" then Some (ascii_of_N 11)
  else if Ascii.eqb c "f" then Some (ascii_of_N 12)
  else if Ascii.eqb c "r" then Some (ascii_of_N 13)
  else None.

Definition set_escape (c : ascii) : option (bool * class_escape) :=
  if Ascii.eqb c "d" then Some (true, EDigit)
  else if Ascii.eqb c "D" then Some (false, EDigit)
  else if Ascii.eqb c "w" then Some (true, EWord)
  else if Ascii.eqb c "W" then Some (false, EWord)
  else if Ascii.eqb c "s" then Some (true, ESpace)
  else if Ascii.eqb c "S" then Some (false, ESpace)
  else None.

(** The escapes that are left out of the fragment: [\c], [\x], [\u],
    [\k] and those that start with a digit other than a lone [\0]. *)
Definition unmodelled_escape (c : ascii) (rest : chars) : bool :=
  Ascii.eqb c "c" || Ascii.eqb c "x" || Ascii.eqb c "u" || Ascii.eqb c "k"
  || in_range "1" "9" c
  || (Ascii.eqb c "0" && match rest with
                         | d :: _ => is_digit d
                         | [] => false
                         end).

(** The character a character escape stands for: a control escape, [\0],
    or the escaped character itself. *)
Definition char_escape (c : ascii) : ascii :=
  match control_escape c with
  | Some k => k
  | None => if Ascii.eqb c "0" then ascii_of_N 0 else c
  end.

(** One member of a character class: a character or a set. *)
Definition class_atom (s : chars) : parsed (class_item * chars) :=
  match s with
  | [] => Invalid
  | "\"%char :: [] => Invalid
  | "\"%char :: c :: t =>
      match set_escape c with
      | Some (pos, e) => Parsed (ISet pos e, t)
      | None =>
          if unmodelled_escape c t then Unmodelled
          else if Ascii.eqb c "b" then Parsed (IOne (ascii_of_N 8), t)
          else Parsed (IOne (char_escape c), t)
      end
  | c :: t => Parsed (IOne c, t)
  end.

(** The members of a class up to its closing bracket.  A range needs two
    characters in order; next to a set the dash stands for itself. *)
Fixpoint class_items (fuel : nat) (s : chars)
  : parsed (list class_item * chars) :=
  match fuel with
  | O => Unmodelled
  | S f =>
      match s with
      | [] => Invalid
      | "]"%char :: t => Parsed ([], t)
      | _ =>
          pbind (class_atom s) (fun '(a, t) =>
            match t with
            | "-"%char :: u =>
                match u with
                | [] => Invalid
                | "]"%char :: _ =>
                    pbind (class_items f t) (fun '(its, rest) =>
                      Parsed (a :: its, rest))
                | _ =>
                    pbind (class_atom u) (fun '(b, v) =>
                      pbind (class_items f v) (fun '(its, rest) =>
                        match a, b with
                        | IOne lo, IOne hi =>
                            if (code hi <? code lo)%N then Invalid
                            else Parsed (IRange lo hi :: its, rest)
                        | _, _ =>
                            Parsed (a :: IOne "-"%char :: b :: its, rest)
                        end))
                end
            | _ =>
                pbind (class_items f t) (fun '(its, rest) =>
                  Parsed (a :: its, rest))
            end)
      end
  end.

Definition class (s : chars) : parsed (regex * chars) :=
  let '(neg, t) := match s with
                   | "^"%char :: t => (true, t)
                   | _ => (false, s)
                   end in
  pbind (class_items (S (List.length t)) t) (fun '(its, rest) =>
    Parsed (Atom (AClass neg its), rest)).

(** An escape outside a class; [s] is what follows the backslash. *)
Definition atom_escape (s : chars) : parsed (regex * chars) :=
  match s with
  | [] => Invalid
  | c :: t =>
      match set_escape c with
      | Some (pos, e) => Parsed (Atom (AEsc pos e), t)
      | None =>
          if unmodelled_escape c t then Unmodelled
          else Parsed (Atom (AChar (char_escape c)), t)
      end
  end.

(** Disjunction, Alternative and Term.  A disjunction ends at the end of the
    pattern or in front of a closing parenthesis, which is left for the
    caller. *)
Fixpoint disjunction (fuel : nat) (s : chars) : parsed (regex * chars) :=
  match fuel with
  | O => Unmodelled
  | S f =>
      pbind (alternative f s) (fun '(r, t) =>
        match t with
        | "|"%char :: u =>
            pbind (disjunction f u) (fun '(r2, rest) =>
              Parsed (Alt r r2, rest))
        | _ => Parsed (r, t)
        end)
  end

with alternative (fuel : nat) (s : chars) : parsed (regex * chars) :=
  match fuel with
  | O => Unmodelled
  | S f =>
      match s with
      | [] => Parsed (Eps, s)
      | "|"%char :: _ => Parsed (Eps, s)
      | ")"%char :: _ => Parsed (Eps, s)
      | _ =>
          pbind (term f s) (fun '(r, t) =>
            pbind (alternative f t) (fun '(r2, rest) =>
              Parsed (seq r r2, rest)))
      end
  end

with term (fuel : nat) (s : chars) : parsed (regex * chars) :=
  match fuel with
  | O => Unmodelled
  | S f =>
      let group := fun body =>
        pbind (disjunction f body) (fun '(r, t) =>
          match t with
          | ")"%char :: u => quantified r u
          | _ => Invalid
          end) in
      match s with
      | [] => Invalid
      | "^"%char :: t => Parsed (Bol, t)
      | "$"%char :: t => Parsed (Eol, t)
      | "\"%char :: "b"%char :: t => Parsed (WordB true, t)
      | "\"%char :: "B"%char :: t => Parsed (WordB false, t)
      | "\"%char :: t =>
          pbind (atom_escape t) (fun '(r, u) => quantified r u)
      | "("%char :: "?"%char :: ":"%char :: t => group t
      | "("%char :: "?"%char :: _ => Unmodelled
      | "("%char :: t => group t
      | ")"%char :: _ => Invalid
      | "*"%char :: _ => Invalid
      | "+"%char :: _ => Invalid
      | "?"%char :: _ => Invalid
      | "|"%char :: _ => Invalid
      | "["%char :: t => pbind (class t) (fun '(r, u) => quantified r u)
      | "."%char :: t => quantified (Atom ADot) t
      | "{"%char :: t =>
          match braces s with
          | Some _ => Invalid
          | None => quantified (Atom (AChar "{")) t
          end
      | c :: t => quantified (Atom (AChar c)) t
      end
  end.

Definition pattern (s : chars) : parsed regex :=
  pbind (disjunction (4 * List.length s + 4) s) (fun '(r, t) =>
    match t with
    | [] => Parsed r
    | _ => Invalid
    end).

(** *** Flags *)

Definition count_char (c : ascii) (s : chars) : nat :=
  List.length (filter (Ascii.eqb c) s).

Definition has_char (c : ascii) (s : chars) : bool :=
  existsb (Ascii.eqb c) s.

Definition flag_chars : chars := str "dgimsuvy".

Definition parse_flags (s : chars) : parsed flagset :=
  if forallb (fun c => has_char c flag_chars) s
     && forallb (fun c => (count_char c s <=? 1)%nat) flag_chars
     && negb (has_char "u" s && has_char "v" s)
  then
    if has_char "u" s || has_char "v" s then Unmodelled
    else Parsed {| hasIndices := has_char "d" s;
                   global := has_char "g" s;
                   ignoreCase := has_char "i" s;
                   multiline := has_char "m" s;
                   dotAll := has_char "s" s;
                   sticky := has_char "y" s |}
  else Invalid.

(** [new RegExp(p, f)]; a missing argument reads as the empty string. *)
Definition RegExpCreate (p f : option chars) : parsed RegExpObject :=
  let p := match p with Some s => s | None => [] end in
  let f := match f with Some s => s | None => [] end in
  pbind (parse_flags f) (fun fl =>
    pbind (pattern p) (fun r =>
      Parsed {| source := r; flags := fl |})).

(** *** Matching

    A position in the input is the character before it, if any, and the
    characters from it on. *)
Definition position := (option ascii * chars)%type.

Definition position_eq_dec (p q : position) : {p = q} + {p <> q}.
Proof. repeat decide equality. Defined.

Definition dedup (l : list position) : list position :=
  nodup position_eq_dec l.

Definition at_bol (fl : flagset) (p : position) : bool :=
  match fst p with
  | None => true
  | Some c => multiline fl && is_line_terminator c
  end.

Definition at_eol (fl : flagset) (p : position) : bool :=
  match snd p with
  | [] => true
  | c :: _ => multiline fl && is_line_terminator c
  end.

Definition at_word_boundary (p : position) : bool :=
  let a := match fst p with Some c => is_word c | None => false end in
  let b := match snd p with c :: _ => is_word c | [] => false end in
  xorb a b.

Fixpoint iterate {A : Type} (n : nat) (f : A -> A) (x : A) : A :=
  match n with
  | O => x
  | S n' => iterate n' f (f x)
  end.

Fixpoint closure (step : list position -> list position) (n : nat)
    (ps : list position) : list position :=
  match n with
  | O => ps
  | S n' => dedup (ps ++ closure step n' (step ps))
  end.

(** [ends fl r p]: the positions at which a match of [r] started at [p] can
    end. *)
Fixpoint ends (fl : flagset) (r : regex) (p : position) : list position :=
  match r with
  | Eps => [p]
  | Atom a =>
      match snd p with
      | c :: rest => if atom_match fl a c then [(Some c, rest)] else []
      | [] => []
      end
  | Bol => if at_bol fl p then [p] else []
  | Eol => if at_eol fl p then [p] else []
  | WordB pos => if Bool.eqb pos (at_word_boundary p) then [p] else []
  | Seq r1 r2 => dedup (flat_map (ends fl r2) (ends fl r1 p))
  | Alt r1 r2 => dedup (ends fl r1 p ++ ends fl r2 p)
  | Rep mn mx r1 =>
      let step := fun ps => dedup (flat_map (ends fl r1) ps) in
      let more := match mx with
                  | None => List.length (snd p)
                  | Some m => Nat.min (m - mn) (List.length (snd p))
                  end in
      closure step more (iterate mn step [p])
  end.

(** *** What a match is

    [Match fl r p q]: the pattern [r] matches the input from position [p]
    to position [q].  [ends] computes the set of these [q]. *)

Fixpoint Iter (R : position -> position -> Prop) (n : nat)
    (p q : position) : Prop :=
  match n with
  | O => p = q
  | S n' => exists m, R p m /\ Iter R n' m q
  end.

(** The numbers of repetitions a quantifier allows. *)
Definition within (mn : nat) (mx : option nat) (n : nat) : Prop :=
  mn <= n /\ match mx with
             | Some m => n <= Nat.max mn m
             | None => True
             end.

Fixpoint Match (fl : flagset) (r : regex) (p q : position) : Prop :=
  match r with
  | Eps => p = q
  | Atom a =>
      exists c rest,
        snd p = c :: rest /\ atom_match fl a c = true /\ q = (Some c, rest)
  | Bol => at_bol fl p = true /\ p = q
  | Eol => at_eol fl p = true /\ p = q
  | WordB pos => Bool.eqb pos (at_word_boundary p) = true /\ p = q
  | Seq r1 r2 => exists m, Match fl r1 p m /\ Match fl r2 m q
  | Alt r1 r2 => Match fl r1 p q \/ Match fl r2 p q
  | Rep mn mx r1 => exists n, within mn mx n /\ Iter (Match fl r1) n p q
  end.

(** For a pattern without assertions a match is a matter of the characters
    consumed alone: [words fl r w] says that [r] matches the word [w]. *)
Fixpoint assertion_free (r : regex) : bool :=
  match r with
  | Bol | Eol | WordB _ => false
  | Seq r1 r2 | Alt r1 r2 => assertion_free r1 && assertion_free r2
  | Rep _ _ r1 => assertion_free r1
  | Eps | Atom _ => true
  end.

Fixpoint IterW (L : chars -> Prop) (n : nat) (w : chars) : Prop :=
  match n with
  | O => w = []
  | S n' => exists u v, w = u ++ v /\ L u /\ IterW L n' v
  end.

Fixpoint words (fl : flagset) (r : regex) (w : chars) : Prop :=
  match r with
  | Eps => w = []
  | Atom a => exists c, w = [c] /\ atom_match fl a c = true
  | Seq r1 r2 => exists u v, w = u ++ v /\ words fl r1 u /\ words fl r2 v
  | Alt r1 r2 => words fl r1 w \/ words fl r2 w
  | Rep mn mx r1 => exists n, within mn mx n /\ IterW (words fl r1) n w
  | Bol | Eol | WordB _ => False
  end.

(** A match moves forward: the input left at its end is a suffix of the
    input left at its start, and a match that consumes nothing ends where
    it started. *)
Definition advance (p q : position) : Prop :=
  (p = q) \/ (exists w c, snd p = w ++ c :: snd q /\ fst q = Some c).

(** Every position of the input, first to last. *)
Fixpoint positions (prev : option ascii) (s : chars) : list position :=
  (prev, s) :: match s with
               | [] => []
               | c :: s' => positions (Some c) s'
               end.

Definition matches_at (re : RegExpObject) (p : position) : bool :=
  match ends (flags re) (source re) p with
  | [] => false
  | _ :: _ => true
  end.

(** [test] on an object whose [lastIndex] is 0, as it is right after
    construction: a sticky pattern has to match at the start, any other may
    match anywhere. *)
Definition test (re : RegExpObject) (s : string) : bool :=
  if sticky (flags re) then matches_at re (None, str s)
  else existsb (matches_at re) (positions None (str s)).

End RegExp.

(** ** The module [LForms.Validations] *)

Module Validations.
Import JS.

Local Open Scope string_scope.

(** The object literal: three tables next to the three functions. *)
Record Tables := {
  _restrictionKeys : list string;
  _dataTypes : list string;
  _errorMessages : list (string * string)
}.

Definition LForms_Validations : Tables := {|
  _restrictionKeys :=
    [ "minExclusive"; "minInclusive"; "maxExclusive"; "maxInclusive";
      "totalDigits"; "fractionDigits"; "length"; "minLength"; "maxLength";
      "enumeration"; "whiteSpace"; "pattern" ];
  _dataTypes :=
    [ "BL"; "INT"; "REAL"; "ST"; "TX"; "BIN"; "DT"; "DTM"; "TM"; "CNE";
      "CWE"; "RTO"; "QTY"; "YEAR"; "MONTH"; "DAY"; "URL"; "EMAIL"; "PHONE";
      "" ];
  _errorMessages :=
    [ ("BL", "must be a boolean (true/false).");
      ("INT", "must be an integer number.");
      ("REAL", "must be a decimal number.");
      ("ST", "must be a string value.");
      ("TX", "must be a text value.");
      ("BIN", "must be a binary value.");
      ("DT", "must be a date value.");
      ("DTM", "must be a date and time value.");
      ("TM", "must be a time value.");
      ("CNE", "must be a value from the answer list.");
      ("CWE",
       "must be a value from the answer list or a user supplied value.");
      ("RTO", "must be a ratio value.");
      ("QTY", "must be a quantity value.");
      ("YEAR", "must be a numeric value of year.");
      ("MONTH", "must be a numeric value of month.");
      ("DAY", "must be a numeric value of day.");
      ("URL", "must be a valid URL.");
      ("EMAIL", "must be a valid email address.");
      ("PHONE", "must be a valid phone number.") ]
|}.

(** *** State and exceptions

    What a call can touch: the array the caller passed as [errors], and the
    module object [this].  A call either returns or throws; what it pushed
    before throwing stays pushed.  The functions below take the parameters
    of the source but [errors], which is the array of the state. *)
Record world := { errors : list value; this : Tables }.

Inductive exn := TypeError | SyntaxError.

Inductive completion (A : Type) :=
  | Normal (a : A)
  | Throw (e : exn).
Arguments Throw {A}.

Definition M (A : Type) : Type := world -> completion A * world.

Definition ret {A : Type} (a : A) : M A := fun w => (Normal a, w).

Definition bind {A B : Type} (m : M A) (k : A -> M B) : M B :=
  fun w =>
    match m w with
    | (Normal a, w') => k a w'
    | (Throw e, w') => (Throw e, w')
    end.

Definition throw {A : Type} (e : exn) : M A := fun w => (Throw e, w).

Notation "x <- m ;; k" := (bind m (fun x => k))
  (at level 61, m at next level, right associativity).
Notation "m ;; k" := (bind m (fun _ => k))
  (at level 61, right associativity).

(** [errors.push(v)] *)
Definition push (v : value) : M unit :=
  fun w => (Normal tt, {| errors := errors w ++ [v]; this := this w |}).

(** [this._errorMessages[k]] *)
Definition errorMessage (k : value) : M value :=
  fun w =>
    (Normal (or_undefined
               (option_map VString
                  (lookup (ToString k) (_errorMessages (this w))))), w).

(** *** The host's regular expressions

    Of a pattern and flags outside the fragment of [RegExp] the model knows
    what every host guarantees: the constructor throws a SyntaxError or
    returns an object, and [test] on the fresh object is a function of the
    string it is given.  Which of the two, and which function, is the
    host's to say: the module and all that is proved of it are stated for
    every host. *)
Class Host :=
  construct : option chars -> option chars -> option (string -> bool).

Inductive regexp :=
  | Modelled (re : RegExp.RegExpObject)
  | Hosted (accepts : string -> bool).

(** [regex.test(value)] *)
Definition test (re : regexp) (v : value) : bool :=
  match re with
  | Modelled re => RegExp.test re (ToString v)
  | Hosted accepts => accepts (ToString v)
  end.

Section WithHost.
Context {host : Host}.

(** The constructor: the regular expression of [p] and [f], unless it
    rejects them. *)
Definition RegExp_constructor (p f : option chars) : option regexp :=
  match RegExp.RegExpCreate p f with
  | RegExp.Parsed re => Some (Modelled re)
  | RegExp.Invalid => None
  | RegExp.Unmodelled => option_map Hosted (construct p f)
  end.

(** [new RegExp(p, f)], and a regular expression literal [/p/]. *)
Definition new_RegExp (p f : option chars) : M regexp :=
  match RegExp_constructor p f with
  | Some re => ret re
  | None => throw SyntaxError
  end.

Definition literal (p : string) : M regexp :=
  new_RegExp (Some (str p)) None.

(** [keyValue.split("/")]: only a string has the method. *)
Definition split_slash (keyValue : value) : M (list chars) :=
  match keyValue with
  | VString s => ret (split "/" (str s))
  | _ => throw TypeError
  end.

Definition concat3 (a : string) (v : value) (b : string) : value :=
  VString (a ++ ToString v ++ b).

(** *** checkRequired *)

Definition checkRequired (required : bool) (value : value) : M bool :=
  if required &&
     (is_blank value
      || (isObject value && strict_eq_string (get_text value) "")
      || (isArray value && (List.length (elements value) =? 0)%nat))
  then push (VString "requires a value") ;; ret false
  else ret true.

(** *** checkDataType *)

Definition strict_eq_bool (v : value) (b : bool) : bool :=
  match v with VBool b' => Bool.eqb b' b | _ => false end.

Definition type_rule (dataType value : value) : M bool :=
  let case := strict_eq_string dataType in
  if case "BL" then
    ret (negb (negb (strict_eq_bool value true)
               && negb (strict_eq_bool value false)))
  else if case "INT" then
    regex <- literal "^\s*(\d+)\s*$" ;; ret (test regex value)
  else if case "REAL" then
    regex <- literal "^\-?\d+(\.\d*)?$" ;; ret (test regex value)
  else if case "PHONE" then
    regex <- literal "(((^\s*(\d\d){0,1}\s*(-?|\.)\s*(\(?\d\d\d\)?\s*(-?|\.?)){0,1}\s*\d\d\d\s*(-?|\.?)\s*\d{4}\b)|(^\s*\+\(?(\d{1,4}\)?(-?|\.?))(\s*\(?\d{2,}\)?\s*(-?|\.?)\s*\d{2,}\s*(-?|\.?)(\s*\d*\s*(-|\.?)){0,3})))(\s*(x|ext|X)\s*\d+){0,1}$)" ;;
    ret (test regex value)
  else if case "EMAIL" then
    regex <- literal "^\s*((\w+)(\.\w+)*)@((\w+)(\.\w+)+)$" ;;
    ret (test regex value)
  else if case "URL" then
    regex <- literal "^(https?:\/\/)?([\da-z\.-]+)\.([a-z\.]{2,6})([\/\w \.-]*)*\/?$" ;;
    ret (test regex value)
  else if case "TM" then
    regex <- literal "^\s*(((\d|[0-1]\d|2[0-4]):([0-5]\d))|(\d|0\d|1[0-2]):([0-5]\d)\s*([aApP][mM]))\s*$" ;;
    ret (test regex value)
  else if case "YEAR" then
    regex <- literal "^\d{1,4}$" ;; ret (test regex value)
  else if case "MONTH" then
    regex <- literal "^(0?[1-9]|1[012])$" ;; ret (test regex value)
  else if case "DAY" then
    regex <- literal "^(0?[1-9]|[12]\d|3[01])$" ;; ret (test regex value)
  else
    ret true.

(** [errors] is an array here, so the guard [angular.isArray(errors)] of the
    push holds. *)
Definition checkDataType (dataType value : value) : M bool :=
  valid <- (if negb (is_blank value) then type_rule dataType value
            else ret true) ;;
  (if negb valid then msg <- errorMessage dataType ;; push msg
   else ret tt) ;;
  ret valid.

(** *** checkRestrictions *)

(** The body of the [switch] for one key of [restrictions]. *)
Definition restriction
    (restrictions : list (string * value)) (value : value) (key : string)
  : M bool :=
  let keyValue := or_undefined (lookup key restrictions) in
  if key =? "minExclusive" then
    if gt (parseFloat value) (parseFloat keyValue) then ret true
    else push (concat3 "must be a value greater than " keyValue ".") ;;
         ret false
  else if key =? "minInclusive" then
    if ge (parseFloat value) (parseFloat keyValue) then ret true
    else push (concat3 "must be a value greater than or equal to "
                 keyValue ".") ;;
         ret false
  else if key =? "maxExclusive" then
    if lt (parseFloat value) (parseFloat keyValue) then ret true
    else push (concat3 "must be a value less than " keyValue ".") ;;
         ret false
  else if key =? "maxInclusive" then
    if le (parseFloat value) (parseFloat keyValue) then ret true
    else push (concat3 "must be a value less than or equal to "
                 keyValue ".") ;;
         ret false
  else if key =? "totalDigits" then ret true
  else if key =? "fractionDigits" then ret true
  else if key =? "length" then
    if loose_eq_number (get_length value) (parseInt keyValue) then ret true
    else push (concat3 "must have a total length of " keyValue ".") ;;
         ret false
  else if key =? "maxLength" then
    if loose_le_number (get_length value) (parseInt keyValue) then ret true
    else push (concat3 "must have a total length less than or equal to "
                 keyValue ".") ;;
         ret false
  else if key =? "minLength" then
    if loose_ge_number (get_length value) (parseInt keyValue) then ret true
    else push (concat3 "must have a total length greater than or equal to "
                 keyValue ".") ;;
         ret false
  else if key =? "pattern" then
    parts <- split_slash keyValue ;;
    regex <- new_RegExp (nth_error parts 1) (nth_error parts 2) ;;
    if test regex value then ret true
    else push (concat3 "must match a RegExp pattern of " keyValue ".") ;;
         ret false
  else
    ret true.

(** [for (var key in restrictions) { ...; allValid = allValid && valid; }] *)
Fixpoint for_in (ks : list string) (body : string -> M bool)
    (allValid : bool) : M bool :=
  match ks with
  | [] => ret allValid
  | key :: ks' =>
      valid <- body key ;;
      for_in ks' body (allValid && valid)
  end.

Definition checkRestrictions
    (restrictions : list (string * value)) (value : value) : M bool :=
  if negb (is_blank value) then
    for_in (keys restrictions) (restriction restrictions value) true
  else ret true.

End WithHost.

Definition empty_world (t : Tables) : world := {| errors := []; this := t |}.

(** A computation is uniform when, whatever the array holds, it completes
    the same way, appends the same messages and leaves the tables as they
    are. *)
Definition uniform {A : Type} (m : M A) : Prop :=
  forall t, exists (o : completion A) (msgs : list value),
    forall errs,
      m {| errors := errs; this := t |}
      = (o, {| errors := (errs ++ msgs)%list; this := t |}).

(** The module as loaded, next to an array that holds [errs]; and a call in
    that state. *)
Definition loaded (errs : list value) : world :=
  {| errors := errs; this := LForms_Validations |}.

Definition call {A : Type} (m : M A) (errs : list value)
  : completion A * world :=
  m (loaded errs).

End Validations.

(** ** What the specification says, in the terms of the model *)

Module Spec.
Import JS Validations.

Local Open Scope string_scope.

(** A value the required check counts as absent: undefined, null, the empty
    string, an object whose [text] is the empty string, an empty
    collection. *)
Definition absent (v : value) : bool :=
  match v with
  | VUndefined | VNull => true
  | VString s => String.eqb s ""
  | VObject props =>
      match lookup "text" props with
      | Some (VString t) => String.eqb t ""
      | _ => false
      end
  | VArray [] => true
  | _ => false
  end.

(** The data type tags that come with a rule. *)
Definition ruled_tags : list string :=
  [ "BL"; "INT"; "REAL"; "PHONE"; "EMAIL"; "URL"; "TM"; "YEAR"; "MONTH";
    "DAY" ].

Definition has_rule (dataType : value) : bool :=
  existsb (strict_eq_string dataType) ruled_tags.

Section WithHost.
Context {host : Host}.

(** One restriction checked on its own, on an empty array: how the check
    completes, and what it pushed. *)
Definition alone (restrictions : list (string * value)) (v : value)
    (key : string) : completion bool * list value :=
  let '(c, w) := call (restriction restrictions v key) [] in (c, errors w).

Definition verdict (restrictions : list (string * value)) (v : value)
    (key : string) : bool :=
  match fst (alone restrictions v key) with
  | Normal b => b
  | Throw _ => false
  end.

Definition raises (restrictions : list (string * value)) (v : value)
    (key : string) : bool :=
  match fst (alone restrictions v key) with
  | Normal _ => false
  | Throw _ => true
  end.

Definition said (restrictions : list (string * value)) (v : value)
    (key : string) : list value :=
  snd (alone restrictions v key).

(** A restriction that cannot be carried out is a pattern whose value is not
    a string, or one whose pieces the constructor rejects. *)
Definition pattern_fails (keyValue : value) : bool :=
  match keyValue with
  | VString k =>
      let parts := split "/" (str k) in
      match RegExp_constructor (nth_error parts 1) (nth_error parts 2) with
      | Some _ => false
      | None => true
      end
  | _ => true
  end.

Definition cannot_run (restrictions : list (string * value)) (key : string)
  : bool :=
  String.eqb key "pattern"
  && pattern_fails (or_undefined (lookup key restrictions)).

Definition runs (restrictions : list (string * value)) : bool :=
  forallb (fun k => negb (cannot_run restrictions k)) (keys restrictions).

End WithHost.

(** Two calls of [m], each on a fresh empty array, the second in the state
    the first has left: same completion, same array, tables as at the
    start. *)
Definition same_twice {A : Type} (m : M A) (t : Tables) : Prop :=
  let r1 := m (empty_world t) in
  let r2 := m (empty_world (this (snd r1))) in
  fst r1 = fst r2 /\ errors (snd r1) = errors (snd r2) /\ this (snd r2) = t.

(** What the data type check says when it fails. *)
Definition type_message (dataType : value) : value :=
  or_undefined
    (option_map VString
       (lookup (ToString dataType) (_errorMessages LForms_Validations))).

(** The failure message of each restriction key, with the key's value
    substituted. *)
Definition message (key : string) (keyValue : value) : option value :=
  let text :=
    [ ("minExclusive", "must be a value greater than ");
      ("minInclusive", "must be a value greater than or equal to ");
      ("maxExclusive", "must be a value less than ");
      ("maxInclusive", "must be a value less than or equal to ");
      ("length", "must have a total length of ");
      ("minLength", "must have a total length greater than or equal to ");
      ("maxLength", "must have a total length less than or equal to ");
      ("pattern", "must match a RegExp pattern of ") ] in
  option_map (fun t => VString (t ++ ToString keyValue ++ "."))
    (lookup key text).

(** The pass condition of each restriction key other than [pattern], as the
    restriction table has it: the parsed value against the parsed
    threshold, or the length of the value against the threshold read as an
    integer; any other key passes. *)
Definition passes (key : string) (threshold v : value) : bool :=
  if key =? "minExclusive" then gt (parseFloat v) (parseFloat threshold)
  else if key =? "minInclusive" then ge (parseFloat v) (parseFloat threshold)
  else if key =? "maxExclusive" then lt (parseFloat v) (parseFloat threshold)
  else if key =? "maxInclusive" then le (parseFloat v) (parseFloat threshold)
  else if key =? "length" then
    loose_eq_number (get_length v) (parseInt threshold)
  else if key =? "minLength" then
    loose_ge_number (get_length v) (parseInt threshold)
  else if key =? "maxLength" then
    loose_le_number (get_length v) (parseInt threshold)
  else true.

(** The four numeric comparisons. *)
Definition numeric_keys : list string :=
  [ "minExclusive"; "minInclusive"; "maxExclusive"; "maxInclusive" ].


Definition not_slash (c : ascii) : bool := negb (Ascii.eqb c "/").

(** The pattern and the flags of a delimiter-wrapped [/pattern/flags]: what
    lies between the first and the last slash, and what follows the last. *)
Definition unwrap (keyValue : string) : option (chars * chars) :=
  match str keyValue with
  | "/"%char :: t =>
      match drop_while not_slash (rev t) with
      | _ :: p => Some (rev p, rev (take_while not_slash (rev t)))
      | [] => None
      end
  | _ => None
  end.

(** *** A host for the examples

    Of the patterns outside the fragment this host knows one, the
    look-ahead [^(?=.*\d).{4,}$] without flags, which accepts the strings
    of four characters or more that hold a digit and no line terminator.
    It rejects the others; the examples use them only where every host
    rejects them. *)
Definition example_host : Host :=
  fun p f =>
    match p, f with
    | Some p, (None | Some []) =>
        if String.eqb (unstr p) "^(?=.*\d).{4,}$" then
          Some (fun s =>
                  (4 <=? String.length s)%nat
                  && forallb (fun c => negb (RegExp.is_line_terminator c))
                       (str s)
                  && existsb is_digit (str s))
        else None
    | _, _ => None
    end.

(** *** Time values *)

(** The regular expression of the time rule, as the constructor returns
    it. *)
Definition time_regex : RegExp.RegExpObject :=
  Eval vm_compute in
    match RegExp.RegExpCreate
            (Some (str "^\s*(((\d|[0-1]\d|2[0-4]):([0-5]\d))|(\d|0\d|1[0-2]):([0-5]\d)\s*([aApP][mM]))\s*$"))
            None
    with
    | RegExp.Parsed re => re
    | _ => {| RegExp.source := RegExp.Eps;
              RegExp.flags := RegExp.Build_flagset false false false false
                                false false |}
    end.

(** The literals of the module carry no flag. *)
Definition plain : RegExp.flagset := RegExp.flags time_regex.

Definition minute (a b : ascii) : bool := in_range "0" "5" a && is_digit b.




Definition is_nil (s : chars) : bool :=
  match s with [] => true | _ => false end.







End Spec.

(** ** Further notions: the strings the other rules accept *)

From Stdlib Require Import Permutation.

Module Forms.
Import JS RegExp Validations Spec.

Local Open Scope string_scope.
Local Open Scope list_scope.

(** A pattern anchored at its end: pieces free of assertions, then [$].
    [chain fl r w] cuts [w] into one word for each piece. *)
Fixpoint is_chain (r : regex) : bool :=
  match r with
  | Eol => true
  | Seq r1 r2 => assertion_free r1 && is_chain r2
  | _ => false
  end.

Fixpoint chain (fl : flagset) (r : regex) (w : chars) : Prop :=
  match r with
  | Eol => w = []
  | Seq r1 r2 => exists u v, w = u ++ v /\ words fl r1 u /\ chain fl r2 v
  | _ => False
  end.

(** The regular expression literals of the other rules, as the
    constructor returns them. *)
Definition regex_of (p : string) : RegExpObject :=
  match RegExpCreate (Some (str p)) None with
  | Parsed re => re
  | _ => {| source := Eps; flags := plain |}
  end.

Definition int_regex : RegExpObject :=
  Eval vm_compute in regex_of "^\s*(\d+)\s*$".

Definition real_regex : RegExpObject :=
  Eval vm_compute in regex_of "^\-?\d+(\.\d*)?$".






(** Digits, at least one, inside optional white space. *)
Definition int_form (s : string) : bool :=
  let t := trim (str s) in
  negb (is_nil t) && forallb is_digit t.

(** [t] without its minus sign, if it starts with one. *)
Definition unsigned (t : chars) : chars :=
  match t with
  | c :: r => if Ascii.eqb c "-" then r else t
  | [] => []
  end.

(** An optional minus sign, digits, at least one, and optionally a dot
    followed by any number of digits; nothing before or after. *)
Definition real_form (s : string) : bool :=
  let t := unsigned (str s) in
  negb (is_nil (take_while is_digit t))
  && match drop_while is_digit t with
     | [] => true
     | c :: fraction => Ascii.eqb c "." && forallb is_digit fraction
     end.


(** One or two digits that denote a number from 1 to [top]. *)
Definition upto (top : Z) (t : chars) : bool :=
  (1 <=? List.length t)%nat && (List.length t <=? 2)%nat
  && forallb is_digit t
  && (1 <=? digits_val 10 digit_val t)%Z
  && (digits_val 10 digit_val t <=? top)%Z.







(** [labels.join(sep)] *)
Fixpoint join (sep : ascii) (labels : list chars) : chars :=
  match labels with
  | [] => []
  | [l] => l
  | l :: rest => l ++ sep :: join sep rest
  end.







(** The number that digits inside optional white space denote. *)
Definition int_value (s : string) : Z :=
  digits_val 10 digit_val (trim (str s)).

(** What each numeric restriction asks of the number [x] of the value, given
    the number [t] of the threshold. *)
Definition bound_ok (key : string) (x t : Z) : bool :=
  if key =? "minExclusive" then (t <? x)%Z
  else if key =? "minInclusive" then (t <=? x)%Z
  else if key =? "maxExclusive" then (x <? t)%Z
  else (x <=? t)%Z.

(** The three restrictions on the length, and what each asks of the length
    [len], given the number [t] of the threshold. *)
Definition length_keys : list string :=
  [ "length"; "minLength"; "maxLength" ].

Definition length_ok (key : string) (len t : Z) : bool :=
  if key =? "length" then (len =? t)%Z
  else if key =? "minLength" then (t <=? len)%Z
  else (len <=? t)%Z.

(** The length of a string or of an array, in characters or in elements. *)
Definition count (v : value) : option nat :=
  match v with
  | VString s => Some (String.length s)
  | VArray l => Some (List.length l)
  | _ => None
  end.

(** The keys for which the restriction check does something. *)
Definition checked_keys : list string :=
  [ "minExclusive"; "minInclusive"; "maxExclusive"; "maxInclusive";
    "length"; "minLength"; "maxLength"; "pattern" ].

Definition unchecked (key : string) : bool :=
  negb (existsb (String.eqb key) checked_keys).


End Forms.

(** * Properties *)

Import JS Validations Spec.

Local Open Scope string_scope.
Local Open Scope list_scope.

(** ** Lists of characters *)

Lemma take_drop_while (p : ascii -> bool) (l : chars) :
  l = take_while p l ++ drop_while p l.
Proof.
  induction l as [| c l IH]; cbn; [ reflexivity | ].
  destruct (p c); cbn; [ now f_equal | reflexivity ].
Qed.

Lemma take_while_all (p : ascii -> bool) (l : chars) :
  forallb p (take_while p l) = true.
Proof.
  induction l as [| c l IH]; cbn; [ reflexivity | ].
  destruct (p c) eqn:E; cbn; [ now rewrite E | reflexivity ].
Qed.

Lemma forallb_rev {A : Type} (p : A -> bool) (l : list A) :
  forallb p (rev l) = forallb p l.
Proof.
  induction l as [| x l IH]; cbn; [ reflexivity | ].
  rewrite forallb_app, IH. cbn. rewrite andb_true_r. apply andb_comm.
Qed.

Lemma drop_while_app (p : ascii -> bool) (h : chars) (x : ascii)
    (t : chars) :
  forallb p h = true -> p x = false ->
  drop_while p (h ++ x :: t) = x :: t.
Proof.
  intros Hh Hx. induction h as [| c h IH]; cbn.
  - now rewrite Hx.
  - cbn in Hh. apply andb_prop in Hh. destruct Hh as [Hc Hh].
    rewrite Hc. now apply IH.
Qed.

Lemma take_while_app (p : ascii -> bool) (h : chars) (x : ascii)
    (t : chars) :
  forallb p h = true -> p x = false ->
  take_while p (h ++ x :: t) = h.
Proof.
  intros Hh Hx. induction h as [| c h IH]; cbn.
  - now rewrite Hx.
  - cbn in Hh. apply andb_prop in Hh. destruct Hh as [Hc Hh].
    rewrite Hc. f_equal. now apply IH.
Qed.

Lemma drop_while_head (p : ascii -> bool) (l : chars) :
  match drop_while p l with
  | c :: _ => p c = false
  | [] => True
  end.
Proof.
  induction l as [| c l IH]; cbn; [ exact I | ].
  destruct (p c) eqn:E; [ exact IH | exact E ].
Qed.

(** White space around a word that neither starts nor ends with white space
    is what [trim] removes. *)
Lemma trim_core (w1 u w3 : chars) (a z : ascii) :
  forallb is_space w1 = true ->
  forallb is_space w3 = true ->
  is_space a = false ->
  is_space z = false ->
  forall w2, w2 = a :: (tl w2) -> w2 = u ++ [z] ->
  trim (w1 ++ w2 ++ w3) = w2.
Proof.
  intros H1 H3 Ha Hz w2 E2 E2'. unfold trim.
  rewrite E2 at 1. cbn [app].
  rewrite (drop_while_app is_space w1 a _ H1 Ha).
  change (a :: tl w2 ++ w3) with ((a :: tl w2) ++ w3). rewrite <- E2.
  rewrite E2' at 1. rewrite rev_app_distr, rev_app_distr. cbn [rev app].
  rewrite drop_while_app; [ | now rewrite forallb_rev | exact Hz ].
  cbn [rev]. rewrite rev_involutive. now symmetry.
Qed.

Lemma trim_decompose (l : chars) :
  exists w1 w3,
    l = w1 ++ trim l ++ w3
    /\ forallb is_space w1 = true /\ forallb is_space w3 = true.
Proof.
  exists (take_while is_space l),
         (rev (take_while is_space (rev (drop_while is_space l)))).
  repeat split.
  - unfold trim. rewrite <- rev_app_distr, <- take_drop_while.
    rewrite rev_involutive. apply take_drop_while.
  - apply take_while_all.
  - rewrite forallb_rev. apply take_while_all.
Qed.

(** ** Regular expressions: [ends] computes the matches *)

Module RegExpFacts.
Import JS RegExp.

Unset Implicit Arguments.

Local Open Scope list_scope.

Lemma dedup_In (l : list position) (q : position) :
  In q (dedup l) <-> In q l.
Proof. unfold dedup. apply nodup_In. Qed.

Lemma advance_refl (p : position) : advance p p.
Proof. now left. Qed.

Lemma advance_trans (p q s : position) :
  advance p q -> advance q s -> advance p s.
Proof.
  intros [-> | (w & c & E & F)] [<- | (w' & c' & E' & F')].
  - now left.
  - right. now exists w', c'.
  - right. now exists w, c.
  - right. exists (w ++ c :: w'), c'. split; [ | exact F' ].
    rewrite E, E'. now rewrite <- app_assoc.
Qed.

Lemma advance_length (p q : position) :
  advance p q -> List.length (snd q) <= List.length (snd p).
Proof.
  intros [-> | (w & c & E & _)]; [ reflexivity | ].
  rewrite E, length_app. cbn. lia.
Qed.

Lemma advance_same_length (p q : position) :
  advance p q -> List.length (snd q) = List.length (snd p) -> p = q.
Proof.
  intros [-> | (w & c & E & _)]; [ reflexivity | ].
  rewrite E, length_app. cbn. lia.
Qed.

Lemma Iter_advance (R : position -> position -> Prop) :
  (forall p q, R p q -> advance p q) ->
  forall n p q, Iter R n p q -> advance p q.
Proof.
  intros HR n. induction n as [| n IH]; intros p q; cbn.
  - intros ->. apply advance_refl.
  - intros (m & Hm & Hi). eapply advance_trans; eauto.
Qed.

Lemma Match_advance (fl : flagset) (r : regex) :
  forall p q, Match fl r p q -> advance p q.
Proof.
  induction r as [ | a | | | pos | r1 IH1 r2 IH2 | r1 IH1 r2 IH2
                 | mn mx r1 IH1 ]; intros p q; cbn.
  - intros ->. apply advance_refl.
  - intros (c & rest & E & _ & ->). right. exists [], c. now rewrite E.
  - intros [_ ->]. apply advance_refl.
  - intros [_ ->]. apply advance_refl.
  - intros [_ ->]. apply advance_refl.
  - intros (m & H1 & H2). eapply advance_trans; eauto.
  - intros [H | H]; auto.
  - intros (n & _ & H). eapply Iter_advance; eauto.
Qed.

(** Composition of iterations, and iterations that make no progress. *)
Lemma Iter_app (R : position -> position -> Prop) (a b : nat) :
  forall p q s, Iter R a p q -> Iter R b q s -> Iter R (a + b) p s.
Proof.
  induction a as [| a IH]; intros p q s; cbn.
  - now intros ->.
  - intros (m & Hm & Hi) Hb. exists m. split; [ exact Hm | ]. eauto.
Qed.

Lemma Iter_split (R : position -> position -> Prop) (a b : nat) :
  forall p s, Iter R (a + b) p s -> exists q, Iter R a p q /\ Iter R b q s.
Proof.
  induction a as [| a IH]; intros p s; cbn.
  - intros H. now exists p.
  - intros (m & Hm & Hi). destruct (IH _ _ Hi) as (q & Ha & Hb).
    exists q. split; [ | exact Hb ]. now exists m.
Qed.

(** Iterations that do not move can be left out: what [n] iterations reach
    is reached by at most as many iterations as there are characters. *)
Lemma Iter_short (R : position -> position -> Prop) :
  (forall p q, R p q -> advance p q) ->
  forall n p q,
    Iter R n p q ->
    exists j, j <= n /\ j <= List.length (snd p) - List.length (snd q)
              /\ Iter R j p q.
Proof.
  intros HR n. induction n as [| n IH]; intros p q; cbn.
  - intros ->. exists 0. repeat split; lia.
  - intros (m & Hm & Hi). destruct (IH _ _ Hi) as (j & Hj & Hl & Hij).
    pose proof (HR _ _ Hm) as Ha.
    pose proof (advance_length _ _ Ha) as Hlen.
    pose proof (advance_length _ _ (Iter_advance R HR _ _ _ Hij)) as Hlen'.
    destruct (Nat.eq_dec (List.length (snd m)) (List.length (snd p)))
      as [E | E].
    + apply advance_same_length in Ha; [ | exact E ]. subst m.
      exists j. repeat split; try lia. exact Hij.
    + exists (S j). repeat split; try lia. cbn. now exists m.
Qed.

Section Steps.

Variable step : list position -> list position.
Variable R : position -> position -> Prop.
Hypothesis step_spec :
  forall ps q, In q (step ps) <-> exists p, In p ps /\ R p q.

Lemma iterate_spec (n : nat) :
  forall ps q,
    In q (iterate n step ps) <-> exists p, In p ps /\ Iter R n p q.
Proof.
  induction n as [| n IH]; intros ps q; cbn.
  - split.
    + intros H. now exists q.
    + now intros (p & Hp & ->).
  - rewrite IH. split.
    + intros (m & Hm & Hi). apply step_spec in Hm.
      destruct Hm as (p & Hp & Hr). exists p. split; [ exact Hp | ].
      now exists m.
    + intros (p & Hp & m & Hr & Hi). exists m. split; [ | exact Hi ].
      apply step_spec. now exists p.
Qed.

Lemma closure_spec (n : nat) :
  forall ps q,
    In q (closure step n ps)
    <-> exists j p, j <= n /\ In p ps /\ Iter R j p q.
Proof.
  induction n as [| n IH]; intros ps q; cbn.
  - split.
    + intros H. exists 0, q. now repeat split.
    + intros (j & p & Hj & Hp & Hi).
      assert (j = 0) by lia. subst j. cbn in Hi. now subst.
  - rewrite dedup_In, in_app_iff, IH. split.
    + intros [H | (j & m & Hj & Hm & Hi)].
      * exists 0, q. repeat split; [ lia | exact H ].
      * apply step_spec in Hm. destruct Hm as (p & Hp & Hr).
        exists (S j), p. repeat split; [ lia | exact Hp | ].
        now exists m.
    + intros (j & p & Hj & Hp & Hi). destruct j as [| j]; cbn in Hi.
      * subst q. now left.
      * destruct Hi as (m & Hr & Hi). right. exists j, m.
        repeat split; [ lia | | exact Hi ].
        apply step_spec. now exists p.
Qed.

End Steps.

(** [ends] is sound and complete for [Match]. *)
Theorem ends_Match (fl : flagset) (r : regex) :
  forall p q, In q (ends fl r p) <-> Match fl r p q.
Proof.
  induction r as [ | a | | | pos | r1 IH1 r2 IH2 | r1 IH1 r2 IH2
                 | mn mx r1 IH1 ]; intros p q.
  - cbn. split; [ intros [H | []]; exact H | intros H; now left ].
  - cbn. destruct p as [prev [| c rest]]; cbn.
    + split; [ intros [] | intros (c & rest & E & _); discriminate ].
    + destruct (atom_match fl a c) eqn:Ea; cbn.
      * split.
        -- intros [<- | []]. now exists c, rest.
        -- intros (c' & rest' & E & _ & ->). injection E as <- <-.
           now left.
      * split; [ intros [] | ].
        intros (c' & rest' & E & Ha & _). injection E as <- <-.
        rewrite Ha in Ea. discriminate.
  - cbn. destruct (at_bol fl p); cbn.
    + split; [ intros [H | []]; now split | intros [_ H]; now left ].
    + split; [ intros [] | intros [H _]; discriminate ].
  - cbn. destruct (at_eol fl p); cbn.
    + split; [ intros [H | []]; now split | intros [_ H]; now left ].
    + split; [ intros [] | intros [H _]; discriminate ].
  - cbn. destruct (Bool.eqb pos (at_word_boundary p)); cbn.
    + split; [ intros [H | []]; now split | intros [_ H]; now left ].
    + split; [ intros [] | intros [H _]; discriminate ].
  - cbn. rewrite dedup_In, in_flat_map. split.
    + intros (m & Hm & Hq). exists m. split; [ now apply IH1 | now apply IH2 ].
    + intros (m & Hm & Hq). exists m. split; [ now apply IH1 | now apply IH2 ].
  - cbn. rewrite dedup_In, in_app_iff, IH1, IH2. reflexivity.
  - cbn [ends Match].
    set (step := fun ps => dedup (flat_map (ends fl r1) ps)).
    assert (Hstep : forall ps s,
               In s (step ps) <-> exists m, In m ps /\ Match fl r1 m s).
    { intros ps s. unfold step. rewrite dedup_In, in_flat_map.
      split; intros (m & Hm & Hs); exists m; (split; [ exact Hm | ]);
        now apply IH1. }
    rewrite (closure_spec _ _ Hstep). split.
    + intros (j & m & Hj & Hm & Hi).
      apply (iterate_spec _ _ Hstep) in Hm. destruct Hm as (p' & [<- | []] & Hmn).
      exists (mn + j). split.
      * split; [ lia | ]. destruct mx as [m' | ]; [ | exact I ]. lia.
      * eapply Iter_app; eauto.
    + intros (n & [Hmn Hmx] & Hi).
      replace n with (mn + (n - mn)) in Hi by lia.
      apply Iter_split in Hi. destruct Hi as (m & Ha & Hb).
      destruct (Iter_short _ (Match_advance fl r1) _ _ _ Hb)
        as (j & Hj & Hl & Hij).
      exists j, m. repeat split.
      * pose proof (advance_length _ _
                      (Iter_advance _ (Match_advance fl r1) _ _ _ Ha)) as L.
        destruct mx as [m' | ]; lia.
      * apply (iterate_spec _ _ Hstep). exists p. split; [ now left | exact Ha ].
      * exact Hij.
Qed.

Lemma In_positions (prev : option ascii) (s : chars) (p : position) :
  In p (positions prev s) -> p = (prev, s) \/ exists c, fst p = Some c.
Proof.
  revert prev. induction s as [| c s IH]; intros prev; cbn.
  - intros [<- | []]. now left.
  - intros [<- | H]; [ now left | ].
    destruct (IH _ H) as [-> | E]; right; [ now exists c | exact E ].
Qed.

(** A pattern that is anchored at the start of the input matches the input
    when it matches from its first position. *)
Lemma test_anchored (r : regex) (fl : flagset) (s : string) :
  multiline fl = false ->
  test {| source := Seq Bol r; flags := fl |} s = true
  <-> exists q, Match fl r (None, str s) q.
Proof.
  intros Hm. unfold test. cbn [flags source].
  assert (Hat : forall p,
             matches_at {| source := Seq Bol r; flags := fl |} p = true
             <-> exists q, Match fl (Seq Bol r) p q).
  { intros p. unfold matches_at. cbn [flags source].
    destruct (ends fl (Seq Bol r) p) as [| q l] eqn:E.
    - split; [ discriminate | ]. intros (q & Hq).
      apply ends_Match in Hq. rewrite E in Hq. destruct Hq.
    - split; [ intros _ | reflexivity ].
      exists q. apply ends_Match. rewrite E. now left. }
  assert (Hfirst : forall p q,
             In p (positions None (str s)) ->
             Match fl (Seq Bol r) p q -> Match fl r (None, str s) q).
  { intros p q Hp (m & [Hb <-] & Hr).
    destruct (In_positions _ _ _ Hp) as [-> | (c & Ec)]; [ exact Hr | ].
    unfold at_bol in Hb. rewrite Ec, Hm in Hb. discriminate. }
  assert (Hhead : In (None, str s) (positions None (str s))).
  { destruct (str s); now left. }
  assert (Hback : forall q, Match fl r (None, str s) q ->
                            Match fl (Seq Bol r) (None, str s) q).
  { intros q Hq. exists (None, str s). split; [ now split | exact Hq ]. }
  destruct (sticky fl).
  - rewrite Hat. split.
    + intros (q & Hq). exists q. eapply Hfirst; eauto.
    + intros (q & Hq). exists q. now apply Hback.
  - rewrite existsb_exists. split.
    + intros (p & Hp & Ht). apply Hat in Ht. destruct Ht as (q & Hq).
      exists q. eapply Hfirst; eauto.
    + intros (q & Hq). exists (None, str s). split; [ exact Hhead | ].
      apply Hat. exists q. now apply Hback.
Qed.

(** *** Patterns without assertions *)

Lemma Match_words (fl : flagset) (r : regex) :
  assertion_free r = true ->
  forall p q,
    Match fl r p q -> exists w, snd p = w ++ snd q /\ words fl r w.
Proof.
  induction r as [ | a | | | pos | r1 IH1 r2 IH2 | r1 IH1 r2 IH2
                 | mn mx r1 IH1 ]; cbn [assertion_free]; intros Hf p q;
    try discriminate.
  - cbn. intros <-. now exists [].
  - cbn. intros (c & rest & E & Ha & ->). exists [c]. split.
    + now rewrite E.
    + now exists c.
  - apply andb_prop in Hf. destruct Hf as [F1 F2].
    cbn. intros (m & H1 & H2).
    destruct (IH1 F1 _ _ H1) as (u & Eu & Wu).
    destruct (IH2 F2 _ _ H2) as (v & Ev & Wv).
    exists (u ++ v). split.
    + rewrite Eu, Ev. now rewrite app_assoc.
    + now exists u, v.
  - apply andb_prop in Hf. destruct Hf as [F1 F2].
    cbn. intros [H | H].
    + destruct (IH1 F1 _ _ H) as (w & E & W). exists w. auto.
    + destruct (IH2 F2 _ _ H) as (w & E & W). exists w. auto.
  - cbn. intros (n & Hn & Hi).
    assert (H : exists w, snd p = w ++ snd q /\ IterW (words fl r1) n w).
    { clear Hn. revert p Hi. induction n as [| n IHn]; intros p; cbn.
      - intros <-. now exists [].
      - intros (m & Hm & Hi).
        destruct (IH1 Hf _ _ Hm) as (u & Eu & Wu).
        destruct (IHn _ Hi) as (v & Ev & Wv).
        exists (u ++ v). split.
        + rewrite Eu, Ev. now rewrite app_assoc.
        + now exists u, v. }
    destruct H as (w & E & W). exists w. split; [ exact E | ].
    now exists n.
Qed.

Lemma words_Match (fl : flagset) (r : regex) :
  assertion_free r = true ->
  forall w, words fl r w ->
  forall prev rest, exists prev', Match fl r (prev, w ++ rest) (prev', rest).
Proof.
  induction r as [ | a | | | pos | r1 IH1 r2 IH2 | r1 IH1 r2 IH2
                 | mn mx r1 IH1 ]; cbn [assertion_free]; intros Hf w;
    try discriminate.
  - cbn. intros -> prev rest. now exists prev.
  - cbn. intros (c & -> & Ha) prev rest. exists (Some c), c, rest. auto.
  - apply andb_prop in Hf. destruct Hf as [F1 F2].
    cbn. intros (u & v & -> & Wu & Wv) prev rest.
    destruct (IH1 F1 _ Wu prev (v ++ rest)) as (p1 & M1).
    destruct (IH2 F2 _ Wv p1 rest) as (p2 & M2).
    exists p2, (p1, v ++ rest). rewrite <- app_assoc. auto.
  - apply andb_prop in Hf. destruct Hf as [F1 F2].
    cbn. intros [W | W] prev rest.
    + destruct (IH1 F1 _ W prev rest) as (p1 & M1). exists p1. auto.
    + destruct (IH2 F2 _ W prev rest) as (p1 & M1). exists p1. auto.
  - cbn. intros (n & Hn & Wi) prev rest.
    assert (H : exists prev',
               Iter (Match fl r1) n (prev, w ++ rest) (prev', rest)).
    { clear Hn. revert w prev Wi. induction n as [| n IHn]; intros w prev;
        cbn.
      - intros ->. now exists prev.
      - intros (u & v & -> & Wu & Wv).
        destruct (IH1 Hf _ Wu prev (v ++ rest)) as (p1 & M1).
        destruct (IHn _ p1 Wv) as (p2 & M2).
        exists p2, (p1, v ++ rest). rewrite <- app_assoc. auto. }
    destruct H as (prev' & Hi). exists prev', n. auto.
Qed.


Set Implicit Arguments.

End RegExpFacts.

(** ** The strings the time rule accepts *)

Module TimeFacts.
Import JS RegExp Validations Spec RegExpFacts.

Local Open Scope list_scope.
Unset Implicit Arguments.

Lemma eqb_code (a b : ascii) : Ascii.eqb a b = (code a =? code b)%N.
Proof.
  destruct (Ascii.eqb_spec a b) as [-> | Hn].
  - symmetry. apply N.eqb_refl.
  - symmetry. apply N.eqb_neq. intros E. apply Hn.
    unfold code in E.
    rewrite <- (ascii_N_embedding a), <- (ascii_N_embedding b).
    now rewrite E.
Qed.

Ltac code_arith :=
  unfold minute, is_digit, in_range, digit_val, is_space in *;
  rewrite ?eqb_code in *;
  repeat match goal with
  | c : ascii |- _ =>
      let n := fresh "n" in
      set (n := code c) in *; clearbody n; clear c
  end;
  change (code "0") with 48%N in *; change (code "1") with 49%N in *;
  change (code "2") with 50%N in *; change (code "4") with 52%N in *;
  change (code "5") with 53%N in *; change (code "9") with 57%N in *;
  change (code ":") with 58%N in *;
  repeat match goal with
  | H : _ && _ = true |- _ => apply andb_prop in H; destruct H
  | H : (_ <=? _)%N = true |- _ => apply N.leb_le in H
  | H : (_ =? _)%N = true |- _ => apply N.eqb_eq in H
  | H : (_ <=? _)%N = false |- _ => apply N.leb_gt in H
  | H : (_ =? _)%N = false |- _ => apply N.eqb_neq in H
  | H : (_ <=? _)%Z = true |- _ => apply Z.leb_le in H
  | H : (_ <=? _)%Z = false |- _ => apply Z.leb_gt in H
  end.








Lemma digit_not_space (c : ascii) : is_digit c = true -> is_space c = false.
Proof.
  intros H. code_arith.
  destruct ((9 <=? n)%N && (n <=? 13)%N) eqn:A.
  - code_arith. lia.
  - destruct (n =? 32)%N eqn:B; [ code_arith; lia | ].
    destruct (n =? 160)%N eqn:C; [ code_arith; lia | reflexivity ].
Qed.











Set Implicit Arguments.
End TimeFacts.

(** ** The monad: every computation of the module appends to the array and
    leaves the tables alone *)

Section Uniform.
Context {host : Host}.

Lemma uniform_ret {A : Type} (a : A) : uniform (ret a).
Proof.
  intros t. exists (Normal a), []. intros errs.
  unfold ret. now rewrite app_nil_r.
Qed.

Lemma uniform_throw {A : Type} (e : exn) : uniform (@throw A e).
Proof.
  intros t. exists (Throw e), []. intros errs.
  unfold throw. now rewrite app_nil_r.
Qed.

Lemma uniform_push (v : value) : uniform (push v).
Proof. intros t. exists (Normal tt), [v]. reflexivity. Qed.

Lemma uniform_errorMessage (k : value) : uniform (errorMessage k).
Proof.
  intros t. eexists _, []. intros errs.
  unfold errorMessage. cbn. now rewrite app_nil_r.
Qed.

Lemma uniform_bind {A B : Type} (m : M A) (k : A -> M B) :
  uniform m -> (forall a, uniform (k a)) -> uniform (bind m k).
Proof.
  intros Hm Hk t. destruct (Hm t) as (o & msgs & Em).
  destruct o as [a | e].
  - destruct (Hk a t) as (o' & msgs' & Ek).
    exists o', (msgs ++ msgs'). intros errs.
    unfold bind. rewrite Em, Ek. now rewrite app_assoc.
  - exists (Throw e), msgs. intros errs.
    unfold bind. now rewrite Em.
Qed.

Lemma uniform_new_RegExp (p f : option chars) : uniform (new_RegExp p f).
Proof.
  unfold new_RegExp. destruct (RegExp_constructor p f).
  - apply uniform_ret.
  - apply uniform_throw.
Qed.

Lemma uniform_split_slash (kv : value) : uniform (split_slash kv).
Proof.
  destruct kv; cbn; try apply uniform_throw. apply uniform_ret.
Qed.

End Uniform.

Create HintDb uniform.
#[local] Hint Resolve uniform_ret uniform_throw uniform_push
  uniform_errorMessage uniform_new_RegExp uniform_split_slash : uniform.

Ltac uniform_step :=
  match goal with
  | |- uniform (bind _ _) => apply uniform_bind; [ | intros ? ]
  | |- uniform (if ?b then _ else _) => destruct b
  | |- uniform (literal _) => unfold literal
  | |- uniform _ => solve [ auto with uniform ]
  end.

Ltac uniform_tac := repeat uniform_step.

(** ** The three checks, for every host *)

Section Checks.
Context {host : Host}.

Lemma uniform_checkRequired (required : bool) (v : value) :
  uniform (checkRequired required v).
Proof. unfold checkRequired. uniform_tac. Qed.

Lemma uniform_type_rule (dataType v : value) :
  uniform (type_rule dataType v).
Proof. unfold type_rule. uniform_tac. Qed.

Lemma uniform_checkDataType (dataType v : value) :
  uniform (checkDataType dataType v).
Proof.
  unfold checkDataType. uniform_tac. apply uniform_type_rule.
Qed.

Lemma uniform_restriction rs (v : value) (key : string) :
  uniform (restriction rs v key).
Proof. unfold restriction. uniform_tac. Qed.

Lemma uniform_for_in (body : string -> M bool) :
  (forall k, uniform (body k)) ->
  forall ks b, uniform (for_in ks body b).
Proof.
  intros Hb ks. induction ks as [| k ks IH]; intros b; cbn.
  - apply uniform_ret.
  - apply uniform_bind; [ apply Hb | intros a; apply IH ].
Qed.

Lemma uniform_checkRestrictions rs (v : value) :
  uniform (checkRestrictions rs v).
Proof.
  unfold checkRestrictions. destruct (negb (is_blank v)).
  - apply uniform_for_in. intros k. apply uniform_restriction.
  - apply uniform_ret.
Qed.

(** What a uniform computation does from any array follows from what it
    does from the empty one. *)
Lemma uniform_from_empty {A : Type} (m : M A) :
  uniform m ->
  forall t errs,
    m {| errors := errs; this := t |}
    = (fst (m {| errors := []; this := t |}),
       {| errors := errs ++ errors (snd (m {| errors := []; this := t |}));
          this := t |}).
Proof.
  intros H t errs. destruct (H t) as (o & msgs & E).
  rewrite (E errs), (E []). reflexivity.
Qed.

(** ** The loop over the restriction keys *)

Lemma forallb_pointwise {A : Type} (f g : A -> bool) (l : list A) :
  (forall x, f x = g x) -> forallb f l = forallb g l.
Proof.
  intros H. induction l as [| x l IH]; cbn; [ reflexivity | ].
  now rewrite H, IH.
Qed.

Lemma for_in_normal (body : string -> M bool) (t : Tables) :
  (forall k, uniform (body k)) ->
  forall ks b errs,
    (forall k, In k ks ->
       exists v, fst (body k (empty_world t)) = Normal v) ->
    for_in ks body b {| errors := errs; this := t |}
    = (Normal (b && forallb
                 (fun k => match fst (body k (empty_world t)) with
                           | Normal v => v
                           | Throw _ => false
                           end) ks),
       {| errors :=
            errs ++ flat_map
                      (fun k => errors (snd (body k (empty_world t)))) ks;
          this := t |}).
Proof.
  intros Hu ks. induction ks as [| k ks IH]; intros b errs Hn; cbn.
  - unfold ret. now rewrite andb_true_r, app_nil_r.
  - unfold bind. rewrite (uniform_from_empty (Hu k) t errs).
    fold (empty_world t).
    destruct (Hn k (or_introl eq_refl)) as (v & Ev).
    rewrite Ev. rewrite IH by (intros k' Hk'; apply Hn; now right).
    now rewrite andb_assoc, app_assoc.
Qed.

Lemma for_in_throws (body : string -> M bool) (t : Tables) :
  (forall k, uniform (body k)) ->
  forall ks b errs,
    (exists k, In k ks /\
       exists e, fst (body k (empty_world t)) = Throw e) ->
    exists e w,
      for_in ks body b {| errors := errs; this := t |} = (Throw e, w).
Proof.
  intros Hu ks. induction ks as [| k ks IH]; intros b errs (k0 & Hin & e & He).
  - destruct Hin.
  - cbn. unfold bind. rewrite (uniform_from_empty (Hu k) t errs).
    fold (empty_world t).
    destruct (fst (body k (empty_world t))) as [v | e'] eqn:Ek.
    + apply IH. destruct Hin as [-> | Hin].
      * rewrite He in Ek. discriminate.
      * exists k0. split; [ exact Hin | now exists e ].
    + now eexists _, _.
Qed.

(** One restriction, checked on its own from any array. *)
Lemma restriction_alone rs (v : value) (key : string) (errs : list value) :
  call (restriction rs v key) errs
  = (fst (alone rs v key),
     loaded (errs ++ said rs v key)).
Proof.
  unfold said, alone, call, loaded.
  rewrite (uniform_from_empty (uniform_restriction rs v key)).
  now destruct (restriction rs v key _).
Qed.

(** Every restriction returning, the loop returns the conjunction of the
    verdicts and has pushed what each said, in the order of the keys. *)
Lemma checkRestrictions_returns rs (v : value) (errs : list value) :
  is_blank v = false ->
  forallb (fun k => negb (raises rs v k)) (keys rs) = true ->
  call (checkRestrictions rs v) errs
  = (Normal (forallb (verdict rs v) (keys rs)),
     loaded (errs ++ flat_map (said rs v) (keys rs))).
Proof.
  intros Hb Hr. unfold call, loaded, checkRestrictions. rewrite Hb. cbn [negb].
  rewrite for_in_normal.
  - cbn [andb]. f_equal.
    + f_equal. apply forallb_pointwise. intros k. unfold verdict, alone, call, loaded.
      unfold empty_world. now destruct (restriction rs v k _).
    + f_equal. f_equal. apply flat_map_ext. intros k.
      unfold said, alone, call, loaded, empty_world.
      now destruct (restriction rs v k _).
  - intros k. apply uniform_restriction.
  - intros k Hk. rewrite forallb_forall in Hr. specialize (Hr k Hk).
    unfold raises, alone, call, loaded in Hr. unfold empty_world.
    destruct (restriction rs v k _) as [[b | e] w]; cbn in *.
    + now exists b.
    + discriminate.
Qed.

Lemma checkRestrictions_throws rs (v : value) (errs : list value) :
  is_blank v = false ->
  forallb (fun k => negb (raises rs v k)) (keys rs) = false ->
  exists e w, call (checkRestrictions rs v) errs = (Throw e, w).
Proof.
  intros Hb Hr. unfold call, loaded, checkRestrictions. rewrite Hb. cbn [negb].
  apply for_in_throws.
  - intros k. apply uniform_restriction.
  - apply not_true_iff_false in Hr.
    assert (H : exists k, In k (keys rs) /\ raises rs v k = true).
    { clear Hb. induction (keys rs) as [| k ks IH].
      - exfalso. now apply Hr.
      - cbn in Hr. destruct (raises rs v k) eqn:E.
        + exists k. split; [ now left | exact E ].
        + destruct IH as (k' & Hin & Hk'); [ exact Hr | ].
          exists k'. split; [ now right | exact Hk' ]. }
    destruct H as (k & Hin & Hk). exists k. split; [ exact Hin | ].
    unfold raises, alone, call, loaded in Hk. unfold empty_world.
    destruct (restriction rs v k _) as [[b | e] w]; cbn in *.
    + discriminate.
    + now exists e.
Qed.

(** ** One restriction *)


Ltac key_cases key :=
  repeat match goal with
  | |- context [String.eqb key ?s] =>
      let E := fresh "E" in
      destruct (String.eqb key s) eqn:E;
      [ apply String.eqb_eq in E; subst key | ]
  end.

(** A restriction returns true and is silent, or returns false and says its
    message, or is a pattern that cannot be carried out. *)
Lemma alone_shape rs (v : value) (key : string) :
  alone rs v key = (Normal true, [])
  \/ (exists m, message key (or_undefined (lookup key rs)) = Some m
                /\ alone rs v key = (Normal false, [m]))
  \/ (key = "pattern"
      /\ pattern_fails (or_undefined (lookup key rs)) = true
      /\ exists e, alone rs v key = (Throw e, [])).
Proof.
  unfold alone, call, loaded, restriction.
  key_cases key;
    try (match goal with
         | |- context [if ?c then ret true else _] => destruct c
         end;
         [ now left | right; left; eexists; split; reflexivity ]);
    try (now left).
  generalize (or_undefined (lookup "pattern" rs)). intros kv.
  unfold pattern_fails, split_slash, new_RegExp.
  destruct kv; try (right; right; repeat split; now exists TypeError).
  cbn [bind ret].
  destruct (RegExp_constructor _ _) as [re |].
  - unfold bind, ret.
    destruct (test re v).
    + now left.
    + right; left; eexists; split; reflexivity.
  - right; right; repeat split; now exists SyntaxError.
Qed.

Lemma raises_pattern rs (v : value) (key : string) :
  raises rs v key = cannot_run rs key.
Proof.
  unfold raises, cannot_run.
  destruct (alone_shape rs v key) as [E | [(m & Em & E) | (Ek & Ep & e & E)]].
  - rewrite E. cbn.
    destruct (String.eqb key "pattern") eqn:K; [ | reflexivity ].
    apply String.eqb_eq in K. subst key. cbn.
    revert E. unfold alone, call, loaded, restriction. cbn.
    generalize (or_undefined (lookup "pattern" rs)). intros kv.
    unfold pattern_fails, split_slash, new_RegExp.
    destruct kv; try discriminate. cbn [bind ret].
    now destruct (RegExp_constructor _ _).
  - rewrite E. cbn.
    destruct (String.eqb key "pattern") eqn:K; [ | reflexivity ].
    apply String.eqb_eq in K. subst key. cbn.
    revert E. unfold alone, call, loaded, restriction. cbn.
    generalize (or_undefined (lookup "pattern" rs)). intros kv.
    unfold pattern_fails, split_slash, new_RegExp.
    destruct kv; try discriminate. cbn [bind ret].
    now destruct (RegExp_constructor _ _).
  - rewrite E. subst key. now rewrite Ep.
Qed.

Lemma verdict_said rs (v : value) (key : string) :
  raises rs v key = false ->
  (verdict rs v key = true /\ said rs v key = [])
  \/ (verdict rs v key = false
      /\ exists m, message key (or_undefined (lookup key rs)) = Some m
                   /\ said rs v key = [m]).
Proof.
  unfold raises, verdict, said.
  destruct (alone_shape rs v key) as [E | [(m & Em & E) | (Ek & Ep & e & E)]];
    rewrite E; cbn.
  - now left.
  - right. split; [ reflexivity | now exists m ].
  - discriminate.
Qed.



Lemma runs_raises rs (v : value) :
  forallb (fun k => negb (raises rs v k)) (keys rs) = runs rs.
Proof.
  unfold runs. apply forallb_pointwise. intros k.
  now rewrite raises_pattern.
Qed.

(** Outside patterns, the verdict of a key is the pass condition of the
    restriction table. *)
Lemma verdict_passes rs (v : value) (key : string) :
  key <> "pattern" ->
  verdict rs v key = passes key (or_undefined (lookup key rs)) v.
Proof.
  intros Hk. unfold verdict, alone, call, loaded, restriction, passes.
  key_cases key;
    try (match goal with
         | |- context [if ?c then ret true else _] => destruct c
         end; reflexivity);
    try reflexivity.
  now elim Hk.
Qed.

(** ** The required check and the data type check *)

Lemma required_condition (v : value) :
  is_blank v
  || (isObject v && strict_eq_string (get_text v) "")
  || (isArray v && (List.length (elements v) =? 0)%nat)
  = absent v.
Proof.
  destruct v as [ | | b | x | s | l | props]; cbn; try reflexivity.
  - now rewrite !orb_false_r.
  - now destruct l.
  - rewrite orb_false_r.
    destruct (lookup "text" props) as [[ | | | | | | ] | ]; reflexivity.
Qed.

Lemma checkRequired_eq (required : bool) (v : value) (w : world) :
  checkRequired required v w
  = if required && absent v
    then (Normal false,
          {| errors := errors w ++ [VString "requires a value"];
             this := this w |})
    else (Normal true, w).
Proof.
  unfold checkRequired. rewrite required_condition.
  now destruct (required && absent v).
Qed.

(** Each regular expression literal of the module is a pattern of the
    fragment. *)
Ltac literal_tac :=
  repeat match goal with
  | |- context [literal ?p] =>
      let r := eval vm_compute in
                 (RegExp.RegExpCreate (Some (str p)) None) in
      match r with
      | RegExp.Parsed ?re =>
          replace (literal p) with (ret (Modelled re))
            by (vm_compute; reflexivity)
      end
  end.

Lemma type_rule_returns (dataType v : value) (w : world) :
  exists b, type_rule dataType v w = (Normal b, w).
Proof.
  unfold type_rule. literal_tac.
  repeat match goal with
  | |- context [if ?c then _ else _] => destruct c
  end; eexists; reflexivity.
Qed.

Lemma checkDataType_eq (dataType v : value) (w : world) :
  exists b : bool,
    checkDataType dataType v w
    = (Normal b,
       {| errors := errors w ++ (if b then [] else [or_undefined
                      (option_map VString
                         (lookup (ToString dataType)
                            (_errorMessages (this w))))]);
          this := this w |}).
Proof.
  unfold checkDataType, bind.
  destruct (negb (is_blank v)).
  - destruct (type_rule_returns dataType v w) as [b ->].
    exists b. destruct b; cbn.
    + destruct w; cbn. now rewrite app_nil_r.
    + reflexivity.
  - exists true. destruct w; cbn. now rewrite app_nil_r.
Qed.

Lemma checkDataType_blank (dataType v : value) (w : world) :
  is_blank v = true -> checkDataType dataType v w = (Normal true, w).
Proof. intros H. unfold checkDataType. now rewrite H. Qed.

Lemma checkDataType_unruled (dataType v : value) (w : world) :
  has_rule dataType = false -> checkDataType dataType v w = (Normal true, w).
Proof.
  intros H. unfold checkDataType, type_rule.
  unfold has_rule in H. cbn in H.
  repeat match goal with
  | H : (_ || _)%bool = false |- _ =>
      let E := fresh "E" in
      apply orb_false_elim in H; destruct H as [E H]; rewrite E; clear E
  end.
  now destruct (negb (is_blank v)).
Qed.

Lemma uniform_twice {A : Type} (m : M A) (t : Tables) :
  uniform m -> same_twice m t.
Proof.
  intros H. unfold same_twice, empty_world.
  destruct (H t) as (o & msgs & E). rewrite !(E []). cbn.
  rewrite (E []). cbn. auto.
Qed.



Lemma checkDataType_loaded (dataType v : value) :
  exists b : bool, forall errs,
    call (checkDataType dataType v) errs
    = (Normal b, loaded (errs ++ if b then [] else [type_message dataType])).
Proof.
  destruct (checkDataType_eq dataType v (loaded [])) as [b E].
  exists b. intros errs. unfold call, loaded.
  rewrite (uniform_from_empty (uniform_checkDataType dataType v)).
  fold (loaded []). rewrite E. cbn [fst snd errors]. unfold loaded, type_message.
  cbn [this errors app]. reflexivity.
Qed.

Lemma checkRestrictions_loaded rs (v : value) (errs : list value) :
  is_blank v || runs rs = true ->
  call (checkRestrictions rs v) errs
  = (Normal (is_blank v || forallb (verdict rs v) (keys rs)),
     loaded (errs ++ if is_blank v then []
                     else flat_map (said rs v) (keys rs))).
Proof.
  intros H. destruct (is_blank v) eqn:Hb.
  - unfold call, checkRestrictions. rewrite Hb. cbn [negb orb].
    now rewrite app_nil_r.
  - cbn [orb] in *. rewrite <- (runs_raises rs v) in H.
    now apply checkRestrictions_returns.
Qed.

(** ** The claims about the three checks *)

(** C1.  A value that is undefined, null or the empty string passes both the
    data type check and the restriction check, whatever the data type and
    the restrictions, and neither check pushes a message: the state after
    the call is the state before it. *)
Theorem blank_value_is_exempt :
  forall (dataType : value) (rs : list (string * value)) (w : world),
    Forall
      (fun v =>
         checkDataType dataType v w = (Normal true, w)
         /\ checkRestrictions rs v w = (Normal true, w))
      [VUndefined; VNull; VString ""].
Proof.
  intros dataType rs w.
  repeat constructor; now apply checkDataType_blank.
Qed.

(** C3.  [checkRequired] returns false and pushes "requires a value" exactly
    when [required] holds and the value is absent (undefined, null, the
    empty string, an object with an empty [text], an empty array); otherwise
    it returns true and pushes nothing.  The number 0 is not absent. *)
Theorem checkRequired_rejects_exactly_absent_values :
  forall (required : bool) (v : value) (w : world),
    (checkRequired required v w
     = if required && absent v
       then (Normal false,
             {| errors := errors w ++ [VString "requires a value"];
                this := this w |})
       else (Normal true, w))
    /\ checkRequired true (VNumber (of_nat 0)) w = (Normal true, w).
Proof.
  intros required v w. split; apply checkRequired_eq.
Qed.

(** C8.  A data type that is none of the ten tags with a rule is always
    valid: the check returns true and pushes nothing.  The tags DT, ST, DTM,
    RTO, QTY, CNE and CWE are among those without a rule. *)
Theorem unruled_data_types_are_valid :
  forall (dataType v : value) (errs : list value),
    has_rule dataType = false ->
    call (checkDataType dataType v) errs = (Normal true, loaded errs)
    /\ forallb (fun tag => negb (has_rule (VString tag)))
         ["DT"; "ST"; "DTM"; "RTO"; "QTY"; "CNE"; "CWE"] = true.
Proof.
  intros dataType v errs H. split.
  - now apply checkDataType_unruled.
  - reflexivity.
Qed.

(** C9.  The checks keep no state of their own: called twice with the same
    arguments, each time on a fresh empty array and the second time in the
    state the first call left, each of the three completes the same way
    with the same array, and the tables of the module are as before. *)
Theorem checks_are_deterministic :
  forall (t : Tables) (required : bool) (dataType v : value)
         (rs : list (string * value)),
    same_twice (checkRequired required v) t
    /\ same_twice (checkDataType dataType v) t
    /\ same_twice (checkRestrictions rs v) t.
Proof.
  intros t required dataType v rs.
  split; [ | split ]; apply uniform_twice.
  - apply uniform_checkRequired.
  - apply uniform_checkDataType.
  - apply uniform_checkRestrictions.
Qed.







(** ** Pattern restrictions *)

Lemma split_no_separator (f : chars) :
  forallb not_slash f = true -> split "/" f = [f].
Proof.
  induction f as [| c f IH]; cbn; [ reflexivity | ].
  intros H. apply andb_prop in H. destruct H as [Hc Hf].
  unfold not_slash in Hc. apply negb_true_iff in Hc. rewrite Hc.
  now rewrite (IH Hf).
Qed.

Lemma split_at_separator (p rest : chars) :
  forallb not_slash p = true ->
  split "/" (p ++ "/"%char :: rest) = p :: split "/" rest.
Proof.
  induction p as [| c p IH]; cbn; [ reflexivity | ].
  intros H. apply andb_prop in H. destruct H as [Hc Hp].
  unfold not_slash in Hc. apply negb_true_iff in Hc. rewrite Hc.
  now rewrite (IH Hp).
Qed.

Lemma unwrap_shape (k : string) (p f : chars) :
  unwrap k = Some (p, f) ->
  str k = "/"%char :: p ++ "/"%char :: f /\ forallb not_slash f = true.
Proof.
  unfold unwrap. destruct (str k) as [| c t]; [ discriminate | ].
  destruct (Ascii.eqb c "/") eqn:Ec.
  - apply Ascii.eqb_eq in Ec. subst c.
    pose proof (take_drop_while not_slash (rev t)) as D.
    pose proof (take_while_all not_slash (rev t)) as A.
    destruct (drop_while not_slash (rev t)) as [| d q] eqn:Eq;
      [ discriminate | ].
    intros H. injection H as <- <-.
    assert (Hd : d = "/"%char).
    { assert (Hq : not_slash d = false).
      { clear - Eq. induction (rev t) as [| x l IH]; cbn in Eq;
          [ discriminate | ].
        destruct (not_slash x) eqn:Ex; [ now apply IH | ].
        now injection Eq as <- _. }
      unfold not_slash in Hq. apply negb_false_iff in Hq.
      now apply Ascii.eqb_eq in Hq. }
    subst d. set (fl := take_while not_slash (rev t)) in *. split.
    + f_equal. rewrite <- (rev_involutive t), D, rev_app_distr.
      cbn. now rewrite <- app_assoc.
    + now rewrite forallb_rev.
  - intros H. exfalso.
    destruct c as [[] [] [] [] [] [] [] []]; try discriminate.
Qed.

(** A pattern restriction whose pattern holds no slash is carried out on the
    pattern and the flags of its value. *)
Lemma pattern_pieces (k : string) (p f : chars) (v : value)
    (errs : list value) :
  unwrap k = Some (p, f) ->
  forallb not_slash p = true ->
  is_blank v = false ->
  call (checkRestrictions [("pattern", VString k)] v) errs
  = call (regex <- new_RegExp (Some p) (Some f) ;;
          if test regex v then ret true
          else push (concat3 "must match a RegExp pattern of "
                       (VString k) ".") ;;
               ret false) errs.
Proof.
  intros Hu Hp Hb. destruct (unwrap_shape k Hu) as [Hk Hf].
  unfold call, checkRestrictions. rewrite Hb. cbn [negb keys map fst for_in].
  unfold restriction.
  cbn [String.eqb Ascii.eqb Bool.eqb lookup or_undefined].
  unfold split_slash. rewrite Hk.
  change ("/"%char :: p ++ "/"%char :: f)
    with ([] ++ "/"%char :: p ++ "/"%char :: f).
  rewrite split_at_separator by reflexivity.
  rewrite split_at_separator by exact Hp.
  rewrite split_no_separator by exact Hf.
  cbn [nth_error]. unfold call, loaded, bind, ret.
  destruct (new_RegExp (Some p) (Some f) _) as [[re | e] w];
    [ | reflexivity ].
  destruct (test re v); [ reflexivity | ].
  destruct (push _ w) as [[[] | e] w']; reflexivity.
Qed.

Lemma pattern_without_slash (k : string) (p f : chars) (v : value)
    (errs : list value) :
  unwrap k = Some (p, f) ->
  forallb not_slash p = true ->
  is_blank v = false ->
  (forall re,
     RegExp.RegExpCreate (Some p) (Some f) = RegExp.Parsed re ->
     call (checkRestrictions [("pattern", VString k)] v) errs
     = if RegExp.test re (ToString v) then (Normal true, loaded errs)
       else (Normal false,
             loaded (errs ++
                       [VString ("must match a RegExp pattern of "
                                 ++ k ++ ".")%string])))
  /\ (RegExp.RegExpCreate (Some p) (Some f) = RegExp.Invalid ->
      call (checkRestrictions [("pattern", VString k)] v) errs
      = (Throw SyntaxError, loaded errs)).
Proof.
  intros Hu Hp Hb. rewrite (pattern_pieces k v errs Hu Hp Hb).
  unfold call, new_RegExp, RegExp_constructor. split.
  - intros re ->. unfold bind, ret, test.
    destruct (RegExp.test re (ToString v)); reflexivity.
  - intros ->. reflexivity.
Qed.

(** C6.  The pattern restriction of the specification's example is carried
    out with its flag: "abc" matches [/^[A-Z]+$/i] and nothing is pushed.
    As long as the pattern holds no slash, the restriction tests the value
    against the pattern and flags of [/pattern/flags] and pushes the
    message with the raw value on failure.  A pattern that holds a slash is
    cut at that slash: [/^\d+\/\d+$/], which matches "1/2", is handed to
    the constructor as pattern [^\d+\] with flags [\d+$], and the call
    raises a SyntaxError. *)
Theorem pattern_holding_a_slash_is_cut_short :
  call (checkRestrictions [("pattern", VString "/^[A-Z]+$/i")]
          (VString "abc")) []
  = (Normal true, loaded [])
  /\ (forall (k : string) (p f : chars) (v : value) (errs : list value),
        unwrap k = Some (p, f) ->
        forallb not_slash p = true ->
        is_blank v = false ->
        (forall re,
           RegExp.RegExpCreate (Some p) (Some f) = RegExp.Parsed re ->
           call (checkRestrictions [("pattern", VString k)] v) errs
           = if RegExp.test re (ToString v) then (Normal true, loaded errs)
             else (Normal false,
                   loaded (errs ++
                             [VString ("must match a RegExp pattern of "
                                       ++ k ++ ".")%string])))
        /\ (RegExp.RegExpCreate (Some p) (Some f) = RegExp.Invalid ->
            call (checkRestrictions [("pattern", VString k)] v) errs
            = (Throw SyntaxError, loaded errs)))
  /\ unwrap "/^\d+\/\d+$/" = Some (str "^\d+\/\d+$", [])
  /\ option_map (fun re => RegExp.test re "1/2")
       (match RegExp.RegExpCreate (Some (str "^\d+\/\d+$")) (Some []) with
        | RegExp.Parsed re => Some re
        | _ => None
        end) = Some true
  /\ split "/" (str "/^\d+\/\d+$/") = [[]; str "^\d+\"; str "\d+$"; []]
  /\ call (checkRestrictions [("pattern", VString "/^\d+\/\d+$/")]
             (VString "1/2")) []
     = (Throw SyntaxError, loaded []).
Proof.
  split; [ vm_compute; reflexivity | ].
  split; [ exact pattern_without_slash | ].
  repeat split; vm_compute; reflexivity.
Qed.


(** ** The time rule in the data type check *)




End Checks.

(** ** The claims at work

    The statements below are about one host, [example_host]. *)

Section Examples.
#[local] Existing Instance example_host.

Lemma unruled_data_types_are_valid_witness :
  has_rule (VString "DT") = false
  /\ call (checkDataType (VString "DT") (VString "yesterday")) []
     = (Normal true, loaded []).
Proof.
  split; [ reflexivity | ].
  apply (unruled_data_types_are_valid (VString "DT") (VString "yesterday") []).
  reflexivity.
Defined.









Lemma pattern_holding_a_slash_is_cut_short_witness :
  unwrap "/^[0-9]{5}$/" = Some (str "^[0-9]{5}$", [])
  /\ forallb not_slash (str "^[0-9]{5}$") = true
  /\ is_blank (VString "1234") = false
  /\ call (checkRestrictions [("pattern", VString "/^[0-9]{5}$/")]
             (VString "1234")) []
     = (Normal false,
        loaded [VString "must match a RegExp pattern of /^[0-9]{5}$/."]).
Proof.
  split; [ reflexivity | ]. split; [ reflexivity | ].
  split; [ reflexivity | ].
  destruct pattern_holding_a_slash_is_cut_short as (_ & H & _).
  destruct (H "/^[0-9]{5}$/" (str "^[0-9]{5}$") [] (VString "1234") [])
    as [Hre _]; [ reflexivity | reflexivity | reflexivity | ].
  rewrite (Hre _ eq_refl). vm_compute. reflexivity.
Defined.



(** *** The examples of the specification *)

Example required_empty_string :
  call (checkRequired true (VString "")) []
  = (Normal false, loaded [VString "requires a value"]).
Proof. reflexivity. Qed.

Example required_zero :
  call (checkRequired true (VNumber (of_nat 0))) [] = (Normal true, loaded []).
Proof. reflexivity. Qed.

Example integer_42 :
  call (checkDataType (VString "INT") (VString "42")) []
  = (Normal true, loaded []).
Proof. vm_compute. reflexivity. Qed.

Example integer_4_2 :
  call (checkDataType (VString "INT") (VString "4.2")) []
  = (Normal false, loaded [VString "must be an integer number."]).
Proof. vm_compute. reflexivity. Qed.

Example real_minus_3_14 :
  call (checkDataType (VString "REAL") (VString "-3.14")) []
  = (Normal true, loaded []).
Proof. vm_compute. reflexivity. Qed.

Example real_abc :
  call (checkDataType (VString "REAL") (VString "abc")) []
  = (Normal false, loaded [VString "must be a decimal number."]).
Proof. vm_compute. reflexivity. Qed.

(** A number among the restrictions is converted for the comparison and
    for the message. *)
Example numeric_threshold :
  call (checkRestrictions [("maxExclusive", VNumber (of_decimal false 25 (-1)))]
          (VString "2.5")) []
  = (Normal false, loaded [VString "must be a value less than 2.5."]).
Proof. vm_compute. reflexivity. Qed.

(** A value of a single string in an array reads as that string. *)
Example time_in_an_array :
  call (checkDataType (VString "TM") (VArray [VString "12:30"])) []
  = (Normal true, loaded []).
Proof. vm_compute. reflexivity. Qed.

(** A pattern with a look-ahead is outside the modelled syntax: the host
    builds the regular expression, and the check goes on with it. *)
Example look_ahead_pattern_accepts :
  call (checkRestrictions [("pattern", VString "/^(?=.*\d).{4,}$/")]
          (VString "abc1")) []
  = (Normal true, loaded []).
Proof. vm_compute. reflexivity. Qed.

Example look_ahead_pattern_rejects :
  call (checkRestrictions [("pattern", VString "/^(?=.*\d).{4,}$/")]
          (VString "abcd")) []
  = (Normal false,
     loaded [VString "must match a RegExp pattern of /^(?=.*\d).{4,}$/."]).
Proof. vm_compute. reflexivity. Qed.

(** What the host refuses raises a SyntaxError like a pattern the parser
    refuses. *)
Example refused_by_the_host :
  call (checkRestrictions [("pattern", VString "/(?=a/")] (VString "a")) []
  = (Throw SyntaxError, loaded []).
Proof. vm_compute. reflexivity. Qed.

End Examples.

(** * Further properties *)

(** ** Patterns anchored at both ends *)

Module ChainFacts.
Import JS RegExp Validations Spec Forms RegExpFacts.

Unset Implicit Arguments.

Local Open Scope list_scope.

Lemma Match_chain (fl : flagset) (r : regex) :
  is_chain r = true ->
  multiline fl = false ->
  forall prev w, (exists q, Match fl r (prev, w) q) <-> chain fl r w.
Proof.
  induction r as [| | | | | r1 _ r2 IH | |]; intros C Hm prev w;
    try discriminate.
  - cbn [Match chain]. unfold at_eol. rewrite Hm. cbn [snd andb]. split.
    + intros (q & H & _). destruct w; [ reflexivity | discriminate ].
    + intros ->. exists (prev, []). now split.
  - cbn [is_chain] in C. apply andb_prop in C. destruct C as [F C].
    cbn [Match chain]. split.
    + intros (q & m & M1 & M2).
      destruct (Match_words fl r1 F _ _ M1) as (u & E & W). cbn [snd] in E.
      exists u, (snd m). split; [ exact E | ]. split; [ exact W | ].
      apply (IH C Hm (fst m) (snd m)). exists q. now destruct m.
    + intros (u & v & -> & W & Cv).
      destruct (words_Match fl r1 F _ W prev v) as (p' & M1).
      apply (IH C Hm p' v) in Cv. destruct Cv as (q & M2).
      exists q, (p', v). now split.
Qed.

(** A pattern [^r1 r2 ... rn$] accepts a string exactly when the string is
    a word of [r1], then one of [r2], and so on to its end. *)
Lemma test_chain (r : regex) (fl : flagset) (s : string) :
  is_chain r = true ->
  multiline fl = false ->
  RegExp.test {| source := Seq Bol r; flags := fl |} s = true
  <-> chain fl r (str s).
Proof.
  intros C Hm. rewrite test_anchored by exact Hm. now apply Match_chain.
Qed.

Lemma IterW_atom (fl : flagset) (a : atom) (n : nat) :
  forall w,
    IterW (words fl (Atom a)) n w
    <-> List.length w = n /\ forallb (atom_match fl a) w = true.
Proof.
  induction n as [| n IH]; intros w; cbn [IterW].
  - split.
    + intros ->. now split.
    + intros [H _]. now destruct w.
  - split.
    + intros (u & v & -> & (c & -> & Hc) & Hv). apply IH in Hv.
      destruct Hv as [<- Hv]. cbn. now rewrite Hc, Hv.
    + intros [Hl Hw]. destruct w as [| c v]; [ discriminate | ].
      cbn in Hl, Hw. apply andb_prop in Hw. destruct Hw as [Hc Hv].
      exists [c], v. split; [ reflexivity | ]. split; [ now exists c | ].
      apply IH. split; [ now injection Hl | exact Hv ].
Qed.

(** A quantified character: the count is within the bounds, and every
    character is one of the atom's. *)
Lemma words_rep_atom (fl : flagset) (a : atom) (mn : nat) (mx : option nat)
    (w : chars) :
  words fl (Rep mn mx (Atom a)) w
  <-> within mn mx (List.length w) /\ forallb (atom_match fl a) w = true.
Proof.
  change (words fl (Rep mn mx (Atom a)) w)
    with (exists n, within mn mx n /\ IterW (words fl (Atom a)) n w).
  split.
  - intros (n & Hn & Hw). apply IterW_atom in Hw. destruct Hw as [<- Hw].
    now split.
  - intros [Hn Hw]. exists (List.length w). split; [ exact Hn | ].
    apply IterW_atom. now split.
Qed.

Lemma words_optional (fl : flagset) (r : regex) (w : chars) :
  words fl (Rep 0 (Some 1) r) w <-> w = [] \/ words fl r w.
Proof.
  change (words fl (Rep 0 (Some 1) r) w)
    with (exists n, within 0 (Some 1) n /\ IterW (words fl r) n w).
  unfold within. split.
  - intros (n & [_ Hn] & Hw). destruct n as [| [| n]]; cbn in Hn.
    + left. exact Hw.
    + right. destruct Hw as (u & v & -> & Hu & ->).
      now rewrite app_nil_r.
    + lia.
  - intros [-> | Hw].
    + exists 0. cbn. repeat split; lia.
    + exists 1. cbn. split; [ lia | ].
      exists w, []. now rewrite app_nil_r.
Qed.

Lemma forallb_escape (fl : flagset) (e : class_escape) (w : chars) :
  forallb (atom_match fl (AEsc true e)) w = forallb (in_escape e) w.
Proof.
  apply forallb_pointwise. intros c. cbn. now destruct (in_escape e c).
Qed.

Lemma forallb_weaken (p q : ascii -> bool) (l : chars) :
  (forall c, p c = true -> q c = true) ->
  forallb p l = true -> forallb q l = true.
Proof.
  intros Hpq. induction l as [| c l IH]; [ reflexivity | ].
  cbn. intros H. apply andb_prop in H. destruct H as [Hc Hl].
  now rewrite (Hpq c Hc), IH.
Qed.

Lemma take_while_whole (p : ascii -> bool) (l : chars) :
  forallb p l = true -> take_while p l = l /\ drop_while p l = [].
Proof.
  induction l as [| c l IH]; cbn; [ now split | ].
  destruct (p c); [ | discriminate ]. cbn. intros H.
  destruct (IH H) as [-> ->]. now split.
Qed.

Lemma trim_digits (w1 w2 w3 : chars) :
  forallb is_space w1 = true ->
  forallb is_digit w2 = true ->
  w2 <> [] ->
  forallb is_space w3 = true ->
  trim (w1 ++ w2 ++ w3) = w2.
Proof.
  intros H1 H2 Hn H3.
  destruct (exists_last Hn) as (u & z & Ez).
  destruct w2 as [| a t]; [ congruence | ].
  assert (Ha : is_digit a = true) by (cbn in H2; now apply andb_prop in H2).
  assert (Hz : is_digit z = true).
  { rewrite Ez, forallb_app in H2. apply andb_prop in H2.
    destruct H2 as [_ H2]. cbn in H2. now apply andb_prop in H2. }
  apply (@trim_core w1 u w3 a z H1 H3); try reflexivity; try exact Ez;
    now apply TimeFacts.digit_not_space.
Qed.

Set Implicit Arguments.
End ChainFacts.

(** ** The strings the other rules accept *)

Module FormFacts.
Import JS RegExp Validations Spec Forms RegExpFacts ChainFacts.

Unset Implicit Arguments.

Local Open Scope list_scope.

Lemma int_regex_accepts (s : string) :
  RegExp.test int_regex s = int_form s.
Proof.
  apply eq_true_iff_eq.
  unfold int_regex. rewrite test_chain by reflexivity.
  cbn [chain]. unfold int_form. split.
  - intros (w1 & v1 & E1 & H1 & w2 & v2 & E2 & H2 & w3 & v3 & E3 & H3 & E4).
    subst v3 v2 v1. rewrite app_nil_r in E1.
    apply words_rep_atom in H1, H2, H3.
    destruct H1 as [_ H1], H2 as [[L2 _] H2], H3 as [_ H3].
    rewrite forallb_escape in H1, H2, H3.
    assert (Hn : w2 <> []) by (destruct w2; [ cbn in L2; lia | discriminate ]).
    rewrite E1, (trim_digits w1 w2 w3 H1 H2 Hn H3).
    change (forallb (in_escape EDigit) w2) with (forallb is_digit w2) in H2.
    rewrite H2. now destruct w2.
  - intros H. apply andb_prop in H. destruct H as [Hn Hd].
    destruct (trim_decompose (str s)) as (w1 & w3 & E & H1 & H3).
    exists w1, (trim (str s) ++ w3). split; [ exact E | ].
    split.
    { apply words_rep_atom. rewrite forallb_escape. split; [ | exact H1 ].
      split; [ lia | exact I ]. }
    exists (trim (str s)), w3. split; [ reflexivity | ].
    split.
    { apply words_rep_atom. rewrite forallb_escape. split; [ | exact Hd ].
      split; [ | exact I ].
      destruct (trim (str s)); [ discriminate | cbn; lia ]. }
    exists w3, []. split; [ now rewrite app_nil_r | ].
    split; [ | reflexivity ].
    apply words_rep_atom. rewrite forallb_escape. split; [ | exact H3 ].
    split; [ lia | exact I ].
Qed.

Lemma digit_not_minus (c : ascii) :
  is_digit c = true -> Ascii.eqb c "-" = false.
Proof.
  intros H. rewrite TimeFacts.eqb_code. apply N.eqb_neq.
  unfold is_digit, in_range in H. apply andb_prop in H. destruct H as [H _].
  apply N.leb_le in H. change (code "0") with 48%N in H.
  change (code "-") with 45%N. lia.
Qed.

Lemma real_regex_accepts (s : string) :
  RegExp.test real_regex s = real_form s.
Proof.
  apply eq_true_iff_eq.
  unfold real_regex. rewrite test_chain by reflexivity.
  cbn [chain]. unfold real_form. split.
  - intros (w1 & v1 & E1 & H1 & w2 & v2 & E2 & H2 & w3 & v3 & E3 & H3 & E4).
    subst v3 v2 v1. rewrite app_nil_r in E1.
    apply words_optional in H1, H3. apply words_rep_atom in H2.
    destruct H2 as [[L2 _] H2]. rewrite forallb_escape in H2.
    change (forallb (in_escape EDigit) w2) with (forallb is_digit w2) in H2.
    destruct w2 as [| a t]; [ cbn in L2; lia | ]. clear L2.
    assert (Ha : is_digit a = true) by (cbn in H2; now apply andb_prop in H2).
    assert (Et : unsigned (str s) = (a :: t) ++ w3).
    { rewrite E1. destruct H1 as [-> | (c & -> & Hc)].
      - cbn. now rewrite (digit_not_minus a Ha).
      - cbn -[Ascii.eqb] in Hc. apply Ascii.eqb_eq in Hc. subst c.
        reflexivity. }
    rewrite Et. clear Et E1 H1.
    destruct H3 as [-> | (u & f & -> & (c & -> & Hc) & Hf)].
    + rewrite app_nil_r.
      destruct (take_while_whole is_digit (a :: t) H2) as [-> ->].
      reflexivity.
    + cbn -[Ascii.eqb] in Hc. apply Ascii.eqb_eq in Hc. subst c.
      apply words_rep_atom in Hf. destruct Hf as [_ Hf].
      rewrite forallb_escape in Hf.
      change (forallb (in_escape EDigit) f) with (forallb is_digit f) in Hf.
      change ([("."%char)] ++ f) with ("."%char :: f).
      rewrite (take_while_app is_digit (a :: t) "." f H2 eq_refl).
      rewrite (drop_while_app is_digit (a :: t) "." f H2 eq_refl).
      cbn. exact Hf.
  - intros H. apply andb_prop in H. destruct H as [Hn Hr].
    assert (Es : exists w1, str s = w1 ++ unsigned (str s)
                            /\ (w1 = [] \/ w1 = ["-"%char])).
    { destruct (str s) as [| c r]; [ exists []; now split | ].
      cbn [unsigned]. destruct (Ascii.eqb_spec c "-") as [-> | _].
      - exists ["-"%char]. split; [ reflexivity | now right ].
      - exists []. split; [ reflexivity | now left ]. }
    destruct Es as (w1 & Es & Hw1).
    pose proof (take_drop_while is_digit (unsigned (str s))) as Et.
    pose proof (take_while_all is_digit (unsigned (str s))) as Hd.
    set (w2 := take_while is_digit (unsigned (str s))) in *.
    set (w3 := drop_while is_digit (unsigned (str s))) in *.
    exists w1, (w2 ++ w3). split; [ now rewrite <- Et | ].
    split.
    { apply words_optional. destruct Hw1 as [-> | ->]; [ now left | ].
      right. now exists "-"%char. }
    exists w2, w3. split; [ reflexivity | ].
    split.
    { apply words_rep_atom. rewrite forallb_escape. split; [ | exact Hd ].
      split; [ | exact I ]. destruct w2; [ discriminate | cbn; lia ]. }
    exists w3, []. split; [ now rewrite app_nil_r | ].
    split; [ | reflexivity ].
    apply words_optional. destruct w3 as [| c f]; [ now left | ].
    right. apply andb_prop in Hr. destruct Hr as [Hc Hf].
    apply Ascii.eqb_eq in Hc. subst c.
    exists ["."%char], f. split; [ reflexivity | ].
    split; [ now exists "."%char | ].
    apply words_rep_atom. rewrite forallb_escape. split; [ | exact Hf ].
    split; [ lia | exact I ].
Qed.


(** A property of one or two characters that can be computed holds when it
    holds of each of the 256 characters. *)
Lemma every_ascii (P : ascii -> bool) :
  forallb P (map ascii_of_nat (List.seq 0 256)) = true -> forall c, P c = true.
Proof.
  intros H c. rewrite forallb_forall in H. apply H.
  rewrite <- (ascii_nat_embedding c). apply in_map. apply in_seq.
  pose proof (nat_ascii_bounded c). lia.
Qed.







Lemma upto_long (top : Z) (a b c : ascii) (t : chars) :
  upto top (a :: b :: c :: t) = false.
Proof. reflexivity. Qed.





(** Among the strings of digits inside white space, those without white
    space are decimal numbers and the others are not. *)
Lemma int_form_real_form (s : string) :
  int_form s = true -> real_form s = forallb is_digit (str s).
Proof.
  unfold int_form, real_form. intros H.
  apply andb_prop in H. destruct H as [Hn Hd].
  destruct (trim_decompose (str s)) as (w1 & w3 & E & H1 & H3).
  set (ds := trim (str s)) in *. clearbody ds. rewrite E. clear E.
  destruct ds as [| a t]; [ discriminate | ]. clear Hn.
  assert (Ha : is_digit a = true) by (cbn in Hd; now apply andb_prop in Hd).
  destruct w1 as [| x w1].
  - cbn [app unsigned]. rewrite (digit_not_minus a Ha).
    change (a :: t ++ w3) with ((a :: t) ++ w3).
    rewrite forallb_app, Hd. cbn [andb].
    destruct w3 as [| y w3].
    + rewrite app_nil_r.
      destruct (take_while_whole is_digit (a :: t) Hd) as [-> ->].
      reflexivity.
    + cbn [forallb] in H3. apply andb_prop in H3. destruct H3 as [Hy _].
      assert (Hy' : is_digit y = false /\ Ascii.eqb y "." = false).
      { assert (G : implb (is_space y)
                      (negb (is_digit y) && negb (Ascii.eqb y ".")) = true).
        { clear. revert y.
          apply (every_ascii
                   (fun y => implb (is_space y)
                               (negb (is_digit y)
                                && negb (Ascii.eqb y ".")))).
          vm_compute. reflexivity. }
        rewrite Hy in G. cbn [implb] in G. apply andb_prop in G.
        destruct G as [G1 G2]. now rewrite negb_true_iff in G1, G2. }
      destruct Hy' as [Hy1 Hy2].
      rewrite (take_while_app is_digit (a :: t) y w3 Hd Hy1).
      rewrite (drop_while_app is_digit (a :: t) y w3 Hd Hy1).
      cbn [forallb is_nil negb andb]. now rewrite Hy1, Hy2.
  - cbn [forallb] in H1. apply andb_prop in H1. destruct H1 as [Hx _].
    assert (Hx' : is_digit x = false /\ Ascii.eqb x "-" = false).
    { assert (G : implb (is_space x)
                    (negb (is_digit x) && negb (Ascii.eqb x "-")) = true).
      { clear. revert x.
        apply (every_ascii
                 (fun x => implb (is_space x)
                             (negb (is_digit x)
                              && negb (Ascii.eqb x "-")))).
        vm_compute. reflexivity. }
      rewrite Hx in G. cbn [implb] in G. apply andb_prop in G.
      destruct G as [G1 G2]. now rewrite negb_true_iff in G1, G2. }
    destruct Hx' as [Hx1 Hx2].
    cbn [app unsigned forallb]. rewrite Hx2. cbn [take_while].
    now rewrite Hx1.
Qed.

Set Implicit Arguments.
End FormFacts.

(** ** The data type rules, one by one *)

Section DataTypeRules.
Context {host : Host}.

Lemma checkDataType_by (dataType v : value) (b : bool) (errs : list value) :
  is_blank v = false ->
  (forall w, type_rule dataType v w = (Normal b, w)) ->
  call (checkDataType dataType v) errs
  = if b then (Normal true, loaded errs)
    else (Normal false, loaded (errs ++ [type_message dataType])).
Proof.
  intros Hb Hr. unfold call, checkDataType. rewrite Hb. cbn [negb].
  unfold bind, ret. rewrite Hr. destruct b; reflexivity.
Qed.

Lemma type_rule_int (v : value) (w : world) :
  type_rule (VString "INT") v w = (Normal (Forms.int_form (ToString v)), w).
Proof.
  unfold type_rule. cbn [strict_eq_string String.eqb Ascii.eqb Bool.eqb].
  replace (literal "^\s*(\d+)\s*$") with (ret (Modelled Forms.int_regex))
    by (vm_compute; reflexivity).
  unfold bind, ret, test. now rewrite FormFacts.int_regex_accepts.
Qed.

Lemma type_rule_real (v : value) (w : world) :
  type_rule (VString "REAL") v w = (Normal (Forms.real_form (ToString v)), w).
Proof.
  unfold type_rule. cbn [strict_eq_string String.eqb Ascii.eqb Bool.eqb].
  replace (literal "^\-?\d+(\.\d*)?$") with (ret (Modelled Forms.real_regex))
    by (vm_compute; reflexivity).
  unfold bind, ret, test. now rewrite FormFacts.real_regex_accepts.
Qed.









End DataTypeRules.

Section DataTypeRules_examples.
#[local] Existing Instance example_host.






End DataTypeRules_examples.

(** ** Integers as doubles *)

Module NumberFacts.
Import JS.

Unset Implicit Arguments.

Local Open Scope Z_scope.

Lemma digits2_bounds (p : positive) :
  2 ^ (Zpos (digits2_pos p) - 1) <= Zpos p < 2 ^ Zpos (digits2_pos p).
Proof.
  induction p as [p IH | p IH | ]; cbn [digits2_pos].
  - rewrite Pos2Z.inj_succ.
    replace (Z.succ (Zpos (digits2_pos p)) - 1)
      with (Z.succ (Zpos (digits2_pos p) - 1)) by lia.
    rewrite !Z.pow_succ_r by lia. lia.
  - rewrite Pos2Z.inj_succ.
    replace (Z.succ (Zpos (digits2_pos p)) - 1)
      with (Z.succ (Zpos (digits2_pos p) - 1)) by lia.
    rewrite !Z.pow_succ_r by lia. lia.
  - cbn. lia.
Qed.

Lemma digits2_unique (p : positive) (n : Z) :
  2 ^ (n - 1) <= Zpos p < 2 ^ n -> 1 <= n -> Zpos (digits2_pos p) = n.
Proof.
  intros [Hlo Hhi] Hn. destruct (digits2_bounds p) as [Dlo Dhi].
  destruct (Z.lt_trichotomy (Zpos (digits2_pos p)) n) as [H | [H | H]].
  - assert (2 ^ Zpos (digits2_pos p) <= 2 ^ (n - 1))
      by (apply Z.pow_le_mono_r; lia). lia.
  - exact H.
  - assert (2 ^ n <= 2 ^ (Zpos (digits2_pos p) - 1))
      by (apply Z.pow_le_mono_r; lia). lia.
Qed.

(** The double of a positive integer below [2 ^ 53]: the integer itself,
    shifted to 53 bits. *)
Lemma of_ratio_integer (neg : bool) (p : positive) :
  Zpos p < 2 ^ 53 ->
  exists m : positive,
    Zpos m = Zpos p * 2 ^ (53 - Zpos (digits2_pos p))
    /\ of_ratio neg (Zpos p) 1
       = S754_finite neg m (Zpos (digits2_pos p) - 53).
Proof.
  intros Hp. destruct (digits2_bounds p) as [Dlo Dhi].
  set (d := Zpos (digits2_pos p)) in *.
  assert (Hd1 : 1 <= d) by (unfold d; lia).
  assert (Hd : d <= 53).
  { destruct (Z.le_gt_cases d 53) as [H | H]; [ exact H | ].
    assert (2 ^ 53 <= 2 ^ (d - 1)) by (apply Z.pow_le_mono_r; lia). lia. }
  set (k := 53 - d).
  assert (Hk : 0 <= k) by (unfold k; lia).
  assert (Hpow : 0 < 2 ^ k) by (apply Z.pow_pos_nonneg; lia).
  destruct (Zpos p * 2 ^ k) as [| m | m] eqn:Em; try lia.
  exists m. split; [ reflexivity | ].
  assert (Dm : Zpos (digits2_pos m) = 53).
  { apply digits2_unique; [ | lia ]. rewrite <- Em.
    replace 53 with (d + k) at 2 by (unfold k; lia).
    replace (53 - 1) with ((d - 1) + k) by (unfold k; lia).
    rewrite !Z.pow_add_r by lia. nia. }
  unfold of_ratio, SFdiv_core_binary.
  change (Zdigits2 (Zpos p)) with d.
  change (Zdigits2 1) with 1.
  replace (fexp prec emax (d + 0 - (1 + 0))) with (d - 54)
    by (unfold fexp, emin, prec, emax; lia).
  replace (Z.min (d - 54) (0 - 0)) with (d - 54) by lia.
  replace (0 - 0 - (d - 54)) with (k + 1) by (unfold k; lia).
  destruct (k + 1) as [| s | s] eqn:Es; try lia.
  rewrite <- Es.
  rewrite Z.shiftl_mul_pow2 by lia.
  rewrite Z.pow_add_r by lia. rewrite Z.mul_assoc.
  rewrite Em.
  change (2 ^ 1) with 2. rewrite Z.mul_comm.
  change (2 * Zpos m) with (Zpos (xO m)).
  assert (Ediv : Z.div_eucl (Zpos m~0) 1 = (Zpos m~0, 0)).
  { pose proof (Z.div_1_r (Zpos m~0)) as Hq.
    pose proof (Z.mod_1_r (Zpos m~0)) as Hr.
    unfold Z.div, Z.modulo in Hq, Hr.
    destruct (Z.div_eucl (Zpos m~0) 1) as [q r]. cbn in Hq, Hr.
    now subst. }
  rewrite Ediv.
  change (new_location 1 0) with loc_Exact.
  unfold binary_round_aux, shr_fexp.
  change (Zdigits2 (Zpos m~0)) with (Zpos (Pos.succ (digits2_pos m))).
  rewrite Pos2Z.inj_succ, Dm.
  replace (fexp prec emax (Z.succ 53 + (d - 54)) - (d - 54)) with 1
    by (unfold fexp, emin, prec, emax; lia).
  cbn [shr shr_record_of_loc iter_pos shr_1 orb shr_m loc_of_shr_record
       round_nearest_even].
  change (Zdigits2 (Zpos m)) with (Zpos (digits2_pos m)). rewrite Dm.
  replace (fexp prec emax (53 + (d - 54 + 1)) - (d - 54 + 1)) with 0
    by (unfold fexp, emin, prec, emax; lia).
  cbn [shr shr_m shr_record_of_loc].
  replace (d - 54 + 1) with (d - 53) by lia.
  replace (d - 53 <=? emax - prec) with true
    by (symmetry; apply Z.leb_le; unfold emax, prec; lia).
  reflexivity.
Qed.


(** Such a double is in normal form already. *)
Lemma canon_integer (neg : bool) (m : positive) (e : Z) :
  Zpos (digits2_pos m) = 53 ->
  -53 < e <= 0 ->
  canon (S754_finite neg m e) = S754_finite neg m e.
Proof.
  intros Dm He. unfold canon, binary_round.
  rewrite Dm.
  replace (fexp prec emax (53 + e)) with e
    by (unfold fexp, emin, prec, emax; lia).
  unfold shl_align. rewrite Z.sub_diag.
  unfold binary_round_aux, shr_fexp.
  change (Zdigits2 (Zpos m)) with (Zpos (digits2_pos m)). rewrite Dm.
  replace (fexp prec emax (53 + e) - e) with 0
    by (unfold fexp, emin, prec, emax; lia).
  cbn [shr shr_record_of_loc shr_m loc_of_shr_record round_nearest_even].
  change (Zdigits2 (Zpos m)) with (Zpos (digits2_pos m)). rewrite Dm.
  replace (fexp prec emax (53 + e) - e) with 0
    by (unfold fexp, emin, prec, emax; lia).
  cbn [shr shr_m shr_record_of_loc].
  replace (e <=? emax - prec) with true
    by (symmetry; apply Z.leb_le; unfold emax, prec; lia).
  reflexivity.
Qed.

(** The integers from 0 below [2 ^ 53] are doubles, told apart and ordered
    as the integers are. *)
Lemma compare_integers (a b : Z) :
  0 <= a < 2 ^ 53 -> 0 <= b < 2 ^ 53 ->
  SFcompare (of_ratio false a 1) (of_ratio false b 1) = Some (a ?= b).
Proof.
  intros Ha Hb.
  destruct a as [| p |]; [ | | lia ]; destruct b as [| q |]; try lia.
  - reflexivity.
  - destruct (of_ratio_integer false q) as (m & _ & ->); [ lia | ].
    reflexivity.
  - destruct (of_ratio_integer false p) as (m & _ & ->); [ lia | ].
    reflexivity.
  - destruct (of_ratio_integer false p) as (m & Em & ->); [ lia | ].
    destruct (of_ratio_integer false q) as (n & En & ->); [ lia | ].
    destruct (digits2_bounds p) as [Plo Phi].
    destruct (digits2_bounds q) as [Qlo Qhi].
    set (d := Zpos (digits2_pos p)) in *.
    set (c := Zpos (digits2_pos q)) in *.
    assert (Hd : 1 <= d <= 53).
    { split; [ unfold d; lia | ].
      destruct (Z.le_gt_cases d 53) as [H | H]; [ exact H | ].
      assert (2 ^ 53 <= 2 ^ (d - 1)) by (apply Z.pow_le_mono_r; lia). lia. }
    assert (Hc : 1 <= c <= 53).
    { split; [ unfold c; lia | ].
      destruct (Z.le_gt_cases c 53) as [H | H]; [ exact H | ].
      assert (2 ^ 53 <= 2 ^ (c - 1)) by (apply Z.pow_le_mono_r; lia). lia. }
    clearbody d c. cbn [SFcompare]. f_equal.
    destruct (Z.compare_spec (d - 53) (c - 53)) as [E | L | G].
    + assert (E' : c = d) by lia. subst c.
      change (Pos.compare_cont Eq m n) with (Zpos m ?= Zpos n).
      rewrite Em, En.
      assert (0 < 2 ^ (53 - d)) by (apply Z.pow_pos_nonneg; lia).
      set (k := 2 ^ (53 - d)) in *.
      destruct (Z.compare_spec (Zpos p) (Zpos q)) as [E1 | L1 | G1].
      * apply Z.compare_eq_iff. now rewrite E1.
      * apply Z.compare_lt_iff. nia.
      * apply Z.compare_gt_iff. nia.
    + symmetry. apply Z.compare_lt_iff.
      assert (2 ^ d <= 2 ^ (c - 1)) by (apply Z.pow_le_mono_r; lia). lia.
    + symmetry. apply Z.compare_gt_iff.
      assert (2 ^ c <= 2 ^ (d - 1)) by (apply Z.pow_le_mono_r; lia). lia.
Qed.

Lemma canon_of_integer (a : Z) :
  0 <= a < 2 ^ 53 -> canon (of_ratio false a 1) = of_ratio false a 1.
Proof.
  intros Ha. destruct a as [| p |]; [ reflexivity | | lia ].
  destruct (of_ratio_integer false p) as (m & Em & E); [ lia | ].
  rewrite E. destruct (digits2_bounds p) as [Plo Phi].
  assert (Hd : Zpos (digits2_pos p) <= 53).
  { destruct (Z.le_gt_cases (Zpos (digits2_pos p)) 53) as [H | H];
      [ exact H | ].
    assert (2 ^ 53 <= 2 ^ (Zpos (digits2_pos p) - 1))
      by (apply Z.pow_le_mono_r; lia). lia. }
  apply canon_integer; [ | lia ].
  apply digits2_unique; [ | lia ]. rewrite Em.
  set (d := Zpos (digits2_pos p)) in *.
  assert (0 < 2 ^ (53 - d)) by (apply Z.pow_pos_nonneg; unfold d; lia).
  assert (Hi : 2 ^ 53 = 2 ^ d * 2 ^ (53 - d)).
  { rewrite <- Z.pow_add_r by (unfold d; lia). f_equal. lia. }
  assert (Lo : 2 ^ (53 - 1) = 2 ^ (d - 1) * 2 ^ (53 - d)).
  { rewrite <- Z.pow_add_r by (unfold d; lia). f_equal. lia. }
  rewrite Hi, Lo. split.
  - apply Z.mul_le_mono_nonneg_r; lia.
  - apply Z.mul_lt_mono_pos_r; lia.
Qed.

(** *** The order of the doubles *)

Lemma compare_flip (a b : Number) :
  SFcompare b a = option_map CompOpp (SFcompare a b).
Proof.
  destruct a as [sa | sa | | sa ma ea], b as [sb | sb | | sb mb eb];
    try reflexivity;
    try (destruct sa; reflexivity); try (destruct sb; reflexivity);
    try (destruct sa, sb; reflexivity).
  cbn [SFcompare option_map]. f_equal.
  change (Pos.compare_cont Eq mb ma) with (Pos.compare mb ma).
  change (Pos.compare_cont Eq ma mb) with (Pos.compare ma mb).
  rewrite (Z.compare_antisym ea eb), (Pos.compare_antisym ma mb).
  destruct sa, sb; try reflexivity;
    destruct (ea ?= eb); cbn [CompOpp]; try reflexivity;
    destruct (ma ?= mb)%positive; reflexivity.
Qed.

Lemma eq_le_ge (a b : Number) : num_eq a b = le a b && ge a b.
Proof.
  unfold num_eq, le, ge, SFeqb, SFleb. rewrite (compare_flip a b).
  destruct (SFcompare a b) as [[| |] |]; reflexivity.
Qed.




Set Implicit Arguments.
End NumberFacts.

(** ** Reading integers out of strings *)

Module ParseFacts.
Import JS RegExp Validations Spec Forms ChainFacts FormFacts NumberFacts.

Unset Implicit Arguments.

Local Open Scope list_scope.

Lemma digit_facts (c : ascii) :
  is_digit c = true ->
  is_space c = false
  /\ Ascii.eqb "I" c = false
  /\ radix_digit 10 c = true
  /\ radix_val c = digit_val c
  /\ signed [c] = (false, [c]).
Proof.
  intros H.
  assert (G : implb (is_digit c)
                (negb (is_space c) && negb (Ascii.eqb "I" c)
                 && radix_digit 10 c && (radix_val c =? digit_val c)%Z
                 && match signed [c] with
                    | (false, [_]) => true
                    | _ => false
                    end) = true).
  { clear H. revert c.
    apply (every_ascii
             (fun c =>
                implb (is_digit c)
                  (negb (is_space c) && negb (Ascii.eqb "I" c)
                   && radix_digit 10 c && (radix_val c =? digit_val c)%Z
                   && match signed [c] with
                      | (false, [_]) => true
                      | _ => false
                      end))).
    vm_compute. reflexivity. }
  rewrite H in G. cbn [implb] in G.
  repeat (apply andb_prop in G; destruct G as [G ?]).
  repeat split.
  - now destruct (is_space c).
  - now destruct (Ascii.eqb "I" c).
  - assumption.
  - now apply Z.eqb_eq.
  - destruct c as [[] [] [] [] [] [] [] []]; try reflexivity; discriminate.
Qed.

Lemma signed_digit (c : ascii) (rest : chars) :
  is_digit c = true -> signed (c :: rest) = (false, c :: rest).
Proof.
  intros H. destruct (digit_facts c H) as (_ & _ & _ & _ & S).
  destruct c as [[] [] [] [] [] [] [] []]; try reflexivity; discriminate.
Qed.

Lemma space_facts (c : ascii) :
  is_space c = true ->
  is_digit c = false
  /\ radix_digit 10 c = false
  /\ Ascii.eqb c "e" || Ascii.eqb c "E" = false
  /\ Ascii.eqb c "x" || Ascii.eqb c "X" = false
  /\ Ascii.eqb c "." = false.
Proof.
  intros H.
  assert (G : implb (is_space c)
                (negb (is_digit c) && negb (radix_digit 10 c)
                 && negb (Ascii.eqb c "e" || Ascii.eqb c "E")
                 && negb (Ascii.eqb c "x" || Ascii.eqb c "X")
                 && negb (Ascii.eqb c ".")) = true).
  { clear H. revert c.
    apply (every_ascii
             (fun c =>
                implb (is_space c)
                  (negb (is_digit c) && negb (radix_digit 10 c)
                   && negb (Ascii.eqb c "e" || Ascii.eqb c "E")
                   && negb (Ascii.eqb c "x" || Ascii.eqb c "X")
                   && negb (Ascii.eqb c ".")))).
    vm_compute. reflexivity. }
  rewrite H in G. cbn [implb] in G.
  repeat (apply andb_prop in G; destruct G as [G ?]).
  repeat split; now apply negb_true_iff.
Qed.

(** What follows the digits of an integer inside white space. *)
Lemma after_digits (ds w3 : chars) (p : ascii -> bool) :
  forallb p ds = true ->
  (forall c, is_space c = true -> p c = false) ->
  forallb is_space w3 = true ->
  take_while p (ds ++ w3) = ds /\ drop_while p (ds ++ w3) = w3.
Proof.
  intros Hd Hp H3. destruct w3 as [| x t].
  - rewrite app_nil_r. now apply take_while_whole.
  - cbn in H3. apply andb_prop in H3. destruct H3 as [Hx _].
    split.
    + now apply take_while_app; [ | apply Hp ].
    + now apply drop_while_app; [ | apply Hp ].
Qed.

Lemma no_fraction (w3 : chars) :
  forallb is_space w3 = true ->
  match w3 with
  | "."%char :: t => (take_while is_digit t, drop_while is_digit t)
  | _ => ([], w3)
  end = ([], w3).
Proof.
  destruct w3 as [| x t]; [ reflexivity | ]. cbn [forallb]. intros H.
  apply andb_prop in H. destruct H as [H _].
  destruct x as [[] [] [] [] [] [] [] []]; try reflexivity; discriminate.
Qed.

Lemma no_exponent (w3 : chars) :
  forallb is_space w3 = true -> exponent_part w3 = None.
Proof.
  destruct w3 as [| x t]; [ reflexivity | ]. cbn [forallb]. intros H.
  apply andb_prop in H. destruct H as [H _].
  destruct (space_facts x H) as (_ & _ & E & _).
  unfold exponent_part. now rewrite E.
Qed.

Lemma radix_ten (t : chars) :
  forallb (fun c => is_digit c || is_space c) t = true ->
  match t with
  | "0"%char :: x :: u =>
      if Ascii.eqb x "x" || Ascii.eqb x "X" then (16%Z, u) else (10%Z, t)
  | _ => (10%Z, t)
  end = (10%Z, t).
Proof.
  destruct t as [| c [| x u]].
  - reflexivity.
  - intros _. destruct c as [[] [] [] [] [] [] [] []]; reflexivity.
  - cbn [forallb]. intros H.
    apply andb_prop in H. destruct H as [_ H].
    apply andb_prop in H. destruct H as [H _].
    assert (Hx : Ascii.eqb x "x" || Ascii.eqb x "X" = false).
    { apply orb_prop in H. destruct H as [H | H].
      - clear - H. revert H.
        assert (G : implb (is_digit x)
                      (negb (Ascii.eqb x "x" || Ascii.eqb x "X")) = true).
        { revert x.
          apply (every_ascii
                   (fun x =>
                      implb (is_digit x)
                        (negb (Ascii.eqb x "x" || Ascii.eqb x "X")))).
          vm_compute. reflexivity. }
        intros H. rewrite H in G. now apply negb_true_iff.
      - now destruct (space_facts x H) as (_ & _ & _ & E & _). }
    destruct c as [[] [] [] [] [] [] [] []]; try reflexivity.
    now rewrite Hx.
Qed.

Lemma digits_val_radix (ds : chars) :
  forallb is_digit ds = true ->
  digits_val 10 radix_val ds = digits_val 10 digit_val ds.
Proof.
  unfold digits_val. generalize 0%Z.
  induction ds as [| c ds IH]; intros z H; [ reflexivity | ].
  cbn in H. apply andb_prop in H. destruct H as [Hc H].
  cbn [fold_left].
  destruct (digit_facts c Hc) as (_ & _ & _ & -> & _). now apply IH.
Qed.

(** Both [parseFloat] and [parseInt] read digits inside white space as the
    integer the digits denote. *)
Lemma parse_int_form (s : string) :
  int_form s = true ->
  parseFloat_string s = of_ratio false (int_value s) 1
  /\ parseInt_string s = of_ratio false (int_value s) 1.
Proof.
  unfold int_form, int_value. intros H.
  apply andb_prop in H. destruct H as [Hn Hd].
  destruct (trim_decompose (str s)) as (w1 & w3 & E & H1 & H3).
  set (ds := trim (str s)) in *. clearbody ds.
  destruct ds as [| a t]; [ discriminate | ]. clear Hn.
  assert (Ha : is_digit a = true) by (cbn in Hd; now apply andb_prop in Hd).
  destruct (digit_facts a Ha) as (Sa & Ia & _ & _ & _).
  assert (Et : trim_start (str s) = (a :: t) ++ w3).
  { unfold trim_start. rewrite E. cbn [app].
    now apply drop_while_app. }
  split.
  - unfold parseFloat_string. rewrite Et. cbn [app].
    rewrite (signed_digit a (t ++ w3) Ha).
    unfold unsigned_decimal.
    replace (starts_with (str "Infinity") (a :: t ++ w3)) with false
      by (cbn [str list_ascii_of_string starts_with]; now rewrite Ia).
    change (a :: t ++ w3) with ((a :: t) ++ w3).
    destruct (after_digits (a :: t) w3 is_digit Hd) as [-> ->];
      [ intros c Hc; now destruct (space_facts c Hc) | exact H3 | ].
    rewrite (no_fraction w3 H3), (no_exponent w3 H3).
    rewrite app_nil_r. cbn [List.length Z.of_nat Z.sub].
    unfold of_decimal. cbn [Z.leb Z.compare Z.pow Z.pow_pos].
    change (10 ^ 0)%Z with 1%Z. now rewrite Z.mul_1_r.
  - unfold parseInt_string. rewrite Et.
    replace (signed ((a :: t) ++ w3)) with (false, (a :: t) ++ w3)
      by (symmetry; apply signed_digit; exact Ha).
    cbv beta iota. rewrite radix_ten.
    2:{ rewrite forallb_app. apply andb_true_intro. split.
        - apply (forallb_weaken is_digit); [ | exact Hd ].
          intros c Hc. now rewrite Hc.
        - apply (forallb_weaken is_space); [ | exact H3 ].
          intros c Hc. rewrite Hc. apply orb_true_r. }
    assert (Hr : forallb (radix_digit 10) (a :: t) = true).
    { apply (forallb_weaken is_digit); [ | exact Hd ].
      intros c Hc. now destruct (digit_facts c Hc) as (_ & _ & ? & _). }
    destruct (after_digits (a :: t) w3 (radix_digit 10) Hr) as [-> _];
      [ intros c Hc; now destruct (space_facts c Hc) as (_ & ? & _)
      | exact H3 | ].
    now rewrite (digits_val_radix (a :: t) Hd).
Qed.

Set Implicit Arguments.
End ParseFacts.

(** ** One restriction at a time *)

Module RestrictionFacts.
Import JS RegExp Validations Spec Forms.

Unset Implicit Arguments.

Local Open Scope string_scope.
Local Open Scope list_scope.

Section WithHost.
Context {host : Host}.

Lemma lookup_first (key : string) (t : value) (rs : list (string * value)) :
  or_undefined (lookup key ((key, t) :: rs)) = t.
Proof. cbn [lookup]. now rewrite String.eqb_refl. Qed.

(** A mapping that holds one restriction other than a pattern. *)
Lemma single_restriction (key : string) (t v : value) (errs : list value) :
  key <> "pattern" ->
  is_blank v = false ->
  call (checkRestrictions [(key, t)] v) errs
  = if passes key t v then (Normal true, loaded errs)
    else (Normal false,
          loaded (errs ++ match message key t with
                          | Some m => [m]
                          | None => []
                          end)).
Proof.
  intros Hk Hb.
  assert (Hc : cannot_run [(key, t)] key = false).
  { unfold cannot_run. apply String.eqb_neq in Hk. now rewrite Hk. }
  assert (Hr : runs [(key, t)] = true).
  { unfold runs. cbn [keys map fst forallb]. now rewrite Hc. }
  rewrite checkRestrictions_loaded by (rewrite Hr; apply orb_true_r).
  rewrite Hb. cbn [orb keys map fst forallb flat_map].
  rewrite andb_true_r, app_nil_r.
  pose proof (@verdict_passes _ [(key, t)] v key Hk) as Hv.
  rewrite lookup_first in Hv.
  assert (Hra : raises [(key, t)] v key = false)
    by (now rewrite raises_pattern).
  destruct (@verdict_said _ [(key, t)] v key Hra)
    as [[V S] | (V & m & Hm & S)].
  - rewrite <- Hv, V, S, app_nil_r. reflexivity.
  - rewrite lookup_first in Hm. rewrite <- Hv, V, S, Hm. reflexivity.
Qed.

Lemma digits_val_nonneg (ds : chars) :
  forallb is_digit ds = true -> (0 <= digits_val 10 digit_val ds)%Z.
Proof.
  unfold digits_val.
  assert (G : forall z : Z,
             (0 <= z)%Z -> forallb is_digit ds = true ->
             (0 <= fold_left (fun acc c => acc * 10 + digit_val c) ds z)%Z).
  { induction ds as [| c ds IH]; intros z Hz H; [ exact Hz | ].
    cbn in H. apply andb_prop in H. destruct H as [Hc H].
    cbn [fold_left]. apply IH; [ | exact H ].
    unfold is_digit, in_range in Hc. apply andb_prop in Hc.
    destruct Hc as [Hc _]. apply N.leb_le in Hc.
    change (code "0") with 48%N in Hc. unfold digit_val. lia. }
  apply G. lia.
Qed.

Lemma int_value_nonneg (s : string) :
  int_form s = true -> (0 <= int_value s)%Z.
Proof.
  unfold int_form, int_value. intros H.
  apply andb_prop in H. destruct H as [_ H].
  now apply digits_val_nonneg.
Qed.

Lemma int_form_not_blank (v : value) :
  int_form (ToString v) = true -> is_blank v = false.
Proof.
  destruct v as [| | b | x | s | l | o]; try reflexivity;
    try (intros H; vm_compute in H; discriminate).
  cbn [ToString is_blank]. destruct s; [ | reflexivity ].
  intros H. vm_compute in H. discriminate.
Qed.

(** The relational operators on the doubles of two integers below
    [2 ^ 53]. *)
Lemma relations_on_integers (a b : Z) :
  (0 <= a < 2 ^ 53)%Z -> (0 <= b < 2 ^ 53)%Z ->
  let x := of_ratio false a 1 in
  let y := of_ratio false b 1 in
  lt x y = (a <? b)%Z /\ le x y = (a <=? b)%Z
  /\ gt x y = (b <? a)%Z /\ ge x y = (b <=? a)%Z
  /\ num_eq x y = (a =? b)%Z.
Proof.
  intros Ha Hb x y.
  unfold lt, le, gt, ge, num_eq, SFltb, SFleb, SFeqb, x, y.
  rewrite (NumberFacts.compare_integers a b Ha Hb).
  rewrite (NumberFacts.compare_integers b a Hb Ha).
  rewrite Z.eqb_compare. unfold Z.ltb, Z.leb.
  rewrite (Z.compare_antisym a b).
  destruct (a ?= b)%Z; repeat split; reflexivity.
Qed.

Lemma passes_bound (key : string) (t v : value) :
  In key numeric_keys ->
  int_form (ToString v) = true ->
  int_form (ToString t) = true ->
  (int_value (ToString v) < 2 ^ 53)%Z ->
  (int_value (ToString t) < 2 ^ 53)%Z ->
  passes key t v
  = bound_ok key (int_value (ToString v))
      (int_value (ToString t)).
Proof.
  intros Hk Fv Ft Bv Bt.
  pose proof (int_value_nonneg _ Fv) as Nv.
  pose proof (int_value_nonneg _ Ft) as Nt.
  destruct (ParseFacts.parse_int_form _ Fv) as [Pv _].
  destruct (ParseFacts.parse_int_form _ Ft) as [Pt _].
  destruct (relations_on_integers (int_value (ToString v))
              (int_value (ToString t)))
    as (L & Le & G & Ge & _); [ lia | lia | ].
  unfold passes, bound_ok, parseFloat. rewrite Pv, Pt.
  cbn in Hk. destruct Hk as [<- | [<- | [<- | [<- | []]]]];
    cbn [String.eqb Ascii.eqb Bool.eqb]; assumption.
Qed.

Lemma of_nat_ratio (n : nat) : of_nat n = of_ratio false (Z.of_nat n) 1.
Proof.
  unfold of_nat, of_Z.
  replace (Z.of_nat n <? 0)%Z with false by (symmetry; apply Z.ltb_ge; lia).
  now rewrite Z.abs_eq by lia.
Qed.

Lemma get_length_count (v : value) (len : nat) :
  count v = Some len -> get_length v = VNumber (of_nat len).
Proof.
  destruct v; try discriminate; cbn; intros E; injection E as <-;
    reflexivity.
Qed.

Lemma passes_length (key : string) (t v : value) (len : nat) :
  In key length_keys ->
  count v = Some len ->
  (Z.of_nat len < 2 ^ 53)%Z ->
  int_form (ToString t) = true ->
  (int_value (ToString t) < 2 ^ 53)%Z ->
  passes key t v = length_ok key (Z.of_nat len) (int_value (ToString t)).
Proof.
  intros Hk Hc Bl Ft Bt.
  pose proof (int_value_nonneg _ Ft) as Nt.
  destruct (ParseFacts.parse_int_form _ Ft) as [_ Pt].
  destruct (relations_on_integers (Z.of_nat len) (int_value (ToString t)))
    as (_ & Le & _ & Ge & Eq); [ lia | lia | ].
  unfold passes, length_ok, parseInt,
    loose_eq_number, loose_le_number, loose_ge_number.
  rewrite (get_length_count v len Hc), of_nat_ratio, Pt.
  cbn [ToNumber]. rewrite NumberFacts.canon_of_integer by lia.
  cbn in Hk. destruct Hk as [<- | [<- | [<- | []]]];
    cbn [String.eqb Ascii.eqb Bool.eqb]; assumption.
Qed.



End WithHost.

Set Implicit Arguments.
End RestrictionFacts.

(** ** Restrictions on integers and on lengths *)

Section Restrictions.
Context {host : Host}.

(** X7.  Bounds on integers.  When the value and the threshold both read as
    digits inside optional white space (the form the INT rule accepts) and
    denote integers below [2 ^ 53], each of the four numeric restrictions
    decides by comparing the two integers: strictly for the exclusive keys,
    allowing equality for the inclusive ones. *)
Theorem numeric_restrictions_compare_integers :
  forall (key : string) (t v : value) (errs : list value),
    In key numeric_keys ->
    Forms.int_form (ToString v) = true ->
    Forms.int_form (ToString t) = true ->
    (Forms.int_value (ToString v) < 2 ^ 53)%Z ->
    (Forms.int_value (ToString t) < 2 ^ 53)%Z ->
    call (checkRestrictions [(key, t)] v) errs
    = if Forms.bound_ok key (Forms.int_value (ToString v))
           (Forms.int_value (ToString t))
      then (Normal true, loaded errs)
      else (Normal false,
            loaded (errs ++ match message key t with
                            | Some m => [m]
                            | None => []
                            end)).
Proof.
  intros key t v errs Hk Fv Ft Bv Bt.
  rewrite RestrictionFacts.single_restriction.
  - now rewrite (RestrictionFacts.passes_bound key t v Hk Fv Ft Bv Bt).
  - intros ->. cbn in Hk. intuition discriminate.
  - now apply RestrictionFacts.int_form_not_blank.
Qed.

(** X8.  Restrictions on the length.  For a string or an array that is not
    blank and a threshold that reads as digits inside optional white space,
    both below [2 ^ 53], [length] asks the number of characters (or of
    elements) to equal the threshold, [minLength] to be at least it and
    [maxLength] to be at most it. *)
Theorem length_restrictions_count_characters :
  forall (key : string) (t v : value) (len : nat) (errs : list value),
    In key Forms.length_keys ->
    is_blank v = false ->
    Forms.count v = Some len ->
    (Z.of_nat len < 2 ^ 53)%Z ->
    Forms.int_form (ToString t) = true ->
    (Forms.int_value (ToString t) < 2 ^ 53)%Z ->
    call (checkRestrictions [(key, t)] v) errs
    = if Forms.length_ok key (Z.of_nat len) (Forms.int_value (ToString t))
      then (Normal true, loaded errs)
      else (Normal false,
            loaded (errs ++ match message key t with
                            | Some m => [m]
                            | None => []
                            end)).
Proof.
  intros key t v len errs Hk Hb Hc Bl Ft Bt.
  rewrite RestrictionFacts.single_restriction.
  - now rewrite (RestrictionFacts.passes_length key t v len Hk Hc Bl Ft Bt).
  - intros ->. cbn in Hk. intuition discriminate.
  - exact Hb.
Qed.



(** X11.  With one threshold, a value that passes the exclusive bound
    passes the inclusive one: [minExclusive] implies [minInclusive], and
    [maxExclusive] implies [maxInclusive]. *)
Theorem exclusive_bound_implies_inclusive :
  forall (t v : value) (errs : list value),
    (call (checkRestrictions [("minExclusive", t)] v) errs
     = (Normal true, loaded errs) ->
     call (checkRestrictions [("minInclusive", t)] v) errs
     = (Normal true, loaded errs))
    /\ (call (checkRestrictions [("maxExclusive", t)] v) errs
        = (Normal true, loaded errs) ->
        call (checkRestrictions [("maxInclusive", t)] v) errs
        = (Normal true, loaded errs)).
Proof.
  intros t v errs.
  assert (Hle : forall a b : Number, SFltb a b = true -> SFleb a b = true).
  { intros a b. unfold SFltb, SFleb.
    destruct (SFcompare a b) as [[| |] |]; congruence. }
  destruct (is_blank v) eqn:Hb.
  { unfold call, checkRestrictions. rewrite Hb. now split. }
  split; intros H.
  - rewrite RestrictionFacts.single_restriction in H |- *;
      try exact Hb; try discriminate.
    unfold passes in *. cbn [String.eqb Ascii.eqb Bool.eqb] in *.
    unfold gt, ge in *.
    destruct (SFltb (parseFloat t) (parseFloat v)) eqn:E;
      [ | discriminate ].
    now rewrite (Hle _ _ E).
  - rewrite RestrictionFacts.single_restriction in H |- *;
      try exact Hb; try discriminate.
    unfold passes in *. cbn [String.eqb Ascii.eqb Bool.eqb] in *.
    unfold lt, le in *.
    destruct (SFltb (parseFloat v) (parseFloat t)) eqn:E;
      [ | discriminate ].
    now rewrite (Hle _ _ E).
Qed.

(** X12.  Only eight keys are checked.  A mapping none of whose keys is one
    of the eight passes for every value and pushes nothing; among these
    keys are the four listed in [_restrictionKeys] as not used, and every
    checked key is listed there. *)
Theorem unchecked_keys_always_pass :
  (forall (rs : list (string * value)) (v : value) (errs : list value),
     forallb Forms.unchecked (keys rs) = true ->
     call (checkRestrictions rs v) errs = (Normal true, loaded errs))
  /\ filter Forms.unchecked (_restrictionKeys LForms_Validations)
     = [ "totalDigits"; "fractionDigits"; "enumeration"; "whiteSpace" ]
  /\ incl Forms.checked_keys (_restrictionKeys LForms_Validations).
Proof.
  split; [ | split ].
  - intros rs v errs Hu.
    assert (Hkey : forall k, In k (keys rs) ->
                     k <> "pattern" /\ forall t, passes k t v = true).
    { intros k Hk. rewrite forallb_forall in Hu. specialize (Hu k Hk).
      unfold Forms.unchecked, Forms.checked_keys in Hu.
      cbn [existsb] in Hu. apply negb_true_iff in Hu.
      repeat (apply orb_false_elim in Hu; destruct Hu as [? Hu]).
      split.
      - intros ->. discriminate.
      - intros t. unfold passes.
        repeat match goal with
        | E : String.eqb k ?s = false |- _ => rewrite E; clear E
        end.
        reflexivity. }
    assert (Hr : runs rs = true).
    { unfold runs. apply forallb_forall. intros k Hk.
      destruct (Hkey k Hk) as [Hp _]. unfold cannot_run.
      apply String.eqb_neq in Hp. now rewrite Hp. }
    rewrite checkRestrictions_loaded by (rewrite Hr; apply orb_true_r).
    destruct (is_blank v); cbn [orb]; [ now rewrite app_nil_r | ].
    assert (Hall : forallb (verdict rs v) (keys rs) = true
                   /\ flat_map (said rs v) (keys rs) = []).
    { revert Hkey. generalize (keys rs) as ks.
      induction ks as [| k ks IH]; intros Hkey; [ now split | ].
      destruct (Hkey k (or_introl eq_refl)) as [Hp Hpass].
      destruct IH as [IH1 IH2].
      { intros k' Hk'. apply Hkey. now right. }
      assert (Hv : verdict rs v k = true)
        by (rewrite verdict_passes by exact Hp; apply Hpass).
      assert (Hra : raises rs v k = false).
      { rewrite raises_pattern. unfold cannot_run.
        apply String.eqb_neq in Hp. now rewrite Hp. }
      destruct (verdict_said rs v k Hra) as [[_ S] | [V _]];
        [ | congruence ].
      cbn [forallb flat_map]. now rewrite Hv, IH1, S, IH2. }
    destruct Hall as [-> ->]. now rewrite app_nil_r.
  - reflexivity.
  - intros k Hk. cbn in Hk |- *. intuition.
Qed.

End Restrictions.

Section Restrictions_examples.
#[local] Existing Instance example_host.

Lemma numeric_restrictions_compare_integers_witness :
  In "minExclusive" numeric_keys
  /\ Forms.int_form (ToString (VString " 10 ")) = true
  /\ Forms.int_form (ToString (VNumber (of_nat 10))) = true
  /\ (Forms.int_value (ToString (VString " 10 ")) < 2 ^ 53)%Z
  /\ (Forms.int_value (ToString (VNumber (of_nat 10))) < 2 ^ 53)%Z
  /\ call (checkRestrictions [("minExclusive", VNumber (of_nat 10))]
             (VString " 10 ")) []
     = (Normal false, loaded [VString "must be a value greater than 10."]).
Proof.
  assert (Hk : In "minExclusive" numeric_keys) by (left; reflexivity).
  assert (Bv : (Forms.int_value (ToString (VString " 10 ")) < 2 ^ 53)%Z)
    by (vm_compute; reflexivity).
  assert (Bt : (Forms.int_value (ToString (VNumber (of_nat 10))) < 2 ^ 53)%Z)
    by (vm_compute; reflexivity).
  repeat (split; [ first [ assumption | reflexivity ] | ]).
  exact (@numeric_restrictions_compare_integers _ "minExclusive"
           (VNumber (of_nat 10)) (VString " 10 ") [] Hk eq_refl eq_refl
           Bv Bt).
Defined.

Lemma length_restrictions_count_characters_witness :
  In "maxLength" Forms.length_keys
  /\ is_blank (VString "abcd") = false
  /\ Forms.count (VString "abcd") = Some 4
  /\ (Z.of_nat 4 < 2 ^ 53)%Z
  /\ Forms.int_form (ToString (VString "3")) = true
  /\ (Forms.int_value (ToString (VString "3")) < 2 ^ 53)%Z
  /\ call (checkRestrictions [("maxLength", VString "3")] (VString "abcd"))
       []
     = (Normal false,
        loaded [VString "must have a total length less than or equal to 3."]).
Proof.
  assert (Hk : In "maxLength" Forms.length_keys)
    by (right; right; left; reflexivity).
  assert (Bl : (Z.of_nat 4 < 2 ^ 53)%Z) by (vm_compute; reflexivity).
  assert (Bt : (Forms.int_value (ToString (VString "3")) < 2 ^ 53)%Z)
    by (vm_compute; reflexivity).
  repeat (split; [ first [ assumption | reflexivity ] | ]).
  exact (@length_restrictions_count_characters _ "maxLength" (VString "3")
           (VString "abcd") 4 [] Hk eq_refl eq_refl Bl eq_refl Bt).
Defined.



Lemma exclusive_bound_implies_inclusive_witness :
  call (checkRestrictions [("minExclusive", VString "1.5")] (VString "2"))
    []
  = (Normal true, loaded [])
  /\ call (checkRestrictions [("minInclusive", VString "1.5")]
             (VString "2")) []
     = (Normal true, loaded []).
Proof.
  split; [ reflexivity | ].
  exact (proj1 (exclusive_bound_implies_inclusive (VString "1.5")
                  (VString "2") []) eq_refl).
Defined.

Lemma unchecked_keys_always_pass_witness :
  forallb Forms.unchecked
    (keys [("totalDigits", VString "2"); ("enumeration", VNull);
           ("Pattern", VString "/^a$/")]) = true
  /\ call (checkRestrictions
             [("totalDigits", VString "2"); ("enumeration", VNull);
              ("Pattern", VString "/^a$/")] (VString "12345")) []
     = (Normal true, loaded []).
Proof.
  split; [ reflexivity | ].
  exact (proj1 unchecked_keys_always_pass
           [("totalDigits", VString "2"); ("enumeration", VNull);
            ("Pattern", VString "/^a$/")] (VString "12345") [] eq_refl).
Defined.

End Restrictions_examples.

(** ** More on pattern restrictions *)

Module PatternFacts.
Import JS RegExp Validations Spec Forms.

Unset Implicit Arguments.

Local Open Scope string_scope.
Local Open Scope list_scope.

Section WithHost.
Context {host : Host}.

(** The pattern case of the loop body, for a value that is a string. *)
Lemma pattern_case (rs : list (string * value)) (k : string) (v : value) :
  lookup "pattern" rs = Some (VString k) ->
  restriction rs v "pattern"
  = (regex <- new_RegExp (nth_error (split "/" (str k)) 1)
                (nth_error (split "/" (str k)) 2) ;;
     if test regex v then ret true
     else push (concat3 "must match a RegExp pattern of " (VString k) ".") ;;
          ret false).
Proof.
  intros Hl. unfold restriction.
  cbn [String.eqb Ascii.eqb Bool.eqb]. rewrite Hl.
  cbn [or_undefined split_slash]. reflexivity.
Qed.

Lemma single_pattern (k : string) (v : value) (errs : list value) :
  is_blank v = false ->
  call (checkRestrictions [("pattern", VString k)] v) errs
  = call (regex <- new_RegExp (nth_error (split "/" (str k)) 1)
                     (nth_error (split "/" (str k)) 2) ;;
          if test regex v then ret true
          else push (concat3 "must match a RegExp pattern of "
                       (VString k) ".") ;;
               ret false) errs.
Proof.
  intros Hb. unfold call, checkRestrictions. rewrite Hb.
  cbn [negb keys map fst for_in].
  rewrite (pattern_case [("pattern", VString k)] k v eq_refl).
  unfold bind at 1.
  destruct ((regex <- new_RegExp _ _ ;; _) (loaded errs)) as [[b | e] w];
    reflexivity.
Qed.


Lemma str_app (a b : string) : str (a ++ b) = str a ++ str b.
Proof.
  unfold str. induction a as [| c a IH]; [ reflexivity | ].
  cbn. now rewrite IH.
Qed.

(** *** The loop *)







End WithHost.

Set Implicit Arguments.
End PatternFacts.

(** ** Patterns that are not applied, or cannot be *)

Section Patterns.
Context {host : Host}.


(** X14.  Of the value of [pattern] only the second and the third piece
    between slashes are used.  Text before the first slash does not change
    how the check completes, and neither does anything from a third slash
    on. *)
Theorem pattern_reads_two_pieces_only :
  forall (v : value) (errs : list value),
    (forall before body : string,
       forallb not_slash (str before) = true ->
       fst (call (checkRestrictions
                    [("pattern", VString (before ++ "/" ++ body))] v) errs)
       = fst (call (checkRestrictions
                      [("pattern", VString ("/" ++ body))] v) errs))
    /\ (forall p f rest : string,
          forallb not_slash (str p) = true ->
          forallb not_slash (str f) = true ->
          fst (call (checkRestrictions
                       [("pattern",
                         VString ("/" ++ p ++ "/" ++ f ++ "/" ++ rest))] v)
                 errs)
          = fst (call (checkRestrictions
                         [("pattern", VString ("/" ++ p ++ "/" ++ f))] v)
                   errs)).
Proof.
  intros v errs.
  assert (Hfst : forall (k k' : string),
             nth_error (split "/" (str k)) 1
             = nth_error (split "/" (str k')) 1 ->
             nth_error (split "/" (str k)) 2
             = nth_error (split "/" (str k')) 2 ->
             fst (call (checkRestrictions [("pattern", VString k)] v) errs)
             = fst (call (checkRestrictions [("pattern", VString k')] v)
                      errs)).
  { intros k k' E1 E2. destruct (is_blank v) eqn:Hb.
    { unfold call, checkRestrictions. now rewrite Hb. }
    rewrite !PatternFacts.single_pattern by exact Hb.
    rewrite E1, E2. unfold call, bind.
    destruct (new_RegExp _ _ (loaded errs)) as [[re | e] w];
      [ | reflexivity ].
    destruct (test re v); [ reflexivity | ].
    unfold push, ret. reflexivity. }
  split.
  - intros before body Hp. apply Hfst.
    + rewrite !PatternFacts.str_app.
      change (str "/") with ["/"%char]. cbn [app].
      rewrite split_at_separator by exact Hp.
      change ("/"%char :: str body) with ([] ++ "/"%char :: str body).
      now rewrite split_at_separator by reflexivity.
    + rewrite !PatternFacts.str_app.
      change (str "/") with ["/"%char]. cbn [app].
      rewrite split_at_separator by exact Hp.
      change ("/"%char :: str body) with ([] ++ "/"%char :: str body).
      now rewrite split_at_separator by reflexivity.
  - intros p f rest Hp Hf.
    assert (E1 : split "/" (str ("/" ++ p ++ "/" ++ f ++ "/" ++ rest))
                 = [] :: str p :: str f :: split "/" (str rest)).
    { rewrite !PatternFacts.str_app.
      change (str "/") with ["/"%char]. cbn [app].
      change ("/"%char :: str p ++ "/"%char :: str f ++ "/"%char :: str rest)
        with ([] ++ "/"%char
                 :: str p ++ "/"%char :: str f ++ "/"%char :: str rest).
      rewrite split_at_separator by reflexivity.
      rewrite (split_at_separator (str p)) by exact Hp.
      now rewrite (split_at_separator (str f)) by exact Hf. }
    assert (E2 : split "/" (str ("/" ++ p ++ "/" ++ f))
                 = [[]; str p; str f]).
    { rewrite !PatternFacts.str_app.
      change (str "/") with ["/"%char]. cbn [app].
      change ("/"%char :: str p ++ "/"%char :: str f)
        with ([] ++ "/"%char :: str p ++ "/"%char :: str f).
      rewrite split_at_separator by reflexivity.
      rewrite (split_at_separator (str p)) by exact Hp.
      now rewrite split_no_separator by exact Hf. }
    apply Hfst; rewrite E1, E2; reflexivity.
Qed.


End Patterns.

Section Patterns_examples.
#[local] Existing Instance example_host.


Lemma pattern_reads_two_pieces_only_witness :
  forallb not_slash (str "^a+$") = true
  /\ forallb not_slash (str "i") = true
  /\ fst (call (checkRestrictions
                  [("pattern", VString "/^a+$/i/g")] (VString "AAA")) [])
     = Normal true.
Proof.
  split; [ reflexivity | ]. split; [ reflexivity | ].
  exact (proj2 (pattern_reads_two_pieces_only (VString "AAA") [])
           "^a+$" "i" "g" eq_refl eq_refl).
Defined.


End Patterns_examples.

(** ** The order of the keys *)

Module OrderFacts.
Import JS RegExp Validations Spec Forms.

Unset Implicit Arguments.

Local Open Scope string_scope.
Local Open Scope list_scope.

Section WithHost.
Context {host : Host}.

Lemma lookup_none (key : string) (rs : list (string * value)) :
  ~ In key (keys rs) -> lookup key rs = None.
Proof.
  induction rs as [| [k t] rs IH]; cbn; [ reflexivity | ].
  intros H. destruct (String.eqb_spec key k) as [-> | _].
  - exfalso. apply H. now left.
  - apply IH. intros Hin. apply H. now right.
Qed.




End WithHost.

Set Implicit Arguments.
End OrderFacts.

Section KeyOrder.
Context {host : Host}.


End KeyOrder.

Section KeyOrder_examples.
#[local] Existing Instance example_host.


End KeyOrder_examples.

(** ** The data type check and its table of messages *)

Section Messages.
Context {host : Host}.

(** X17.  A data type check that fails names a tag of [_dataTypes] that has
    an entry in [_errorMessages], and pushes that entry: the message is
    never undefined. *)
Theorem failing_type_check_pushes_the_message_of_the_tag :
  forall (dataType v : value) (errs : list value) (w : world),
    call (checkDataType dataType v) errs = (Normal false, w) ->
    exists tag text : string,
      dataType = VString tag
      /\ In tag (_dataTypes LForms_Validations)
      /\ lookup tag (_errorMessages LForms_Validations) = Some text
      /\ w = loaded (errs ++ [VString text]).
Proof.
  intros dataType v errs w H.
  destruct (has_rule dataType) eqn:Hr.
  2:{ unfold call in H. rewrite checkDataType_unruled in H by exact Hr.
      discriminate. }
  destruct (checkDataType_loaded dataType v) as (b & Hb).
  rewrite Hb in H. injection H as -> <-.
  unfold has_rule in Hr. apply existsb_exists in Hr.
  destruct Hr as (tag & Htag & He).
  destruct dataType as [| | | | s | |]; try discriminate.
  cbn [strict_eq_string] in He. apply String.eqb_eq in He. subst s.
  exists tag. unfold type_message. cbn [ToString].
  cbn in Htag.
  repeat (destruct Htag as [<- | Htag];
          [ eexists; split; [ reflexivity | ];
            split; [ cbn; tauto | ]; split; reflexivity | ]).
  destruct Htag.
Qed.

End Messages.

Section Messages_examples.
#[local] Existing Instance example_host.

Lemma failing_type_check_pushes_the_message_of_the_tag_witness :
  call (checkDataType (VString "EMAIL") (VString "a@b")) []
  = (Normal false, loaded [VString "must be a valid email address."])
  /\ exists tag text : string,
       VString "EMAIL" = VString tag
       /\ In tag (_dataTypes LForms_Validations)
       /\ lookup tag (_errorMessages LForms_Validations) = Some text
       /\ loaded [VString "must be a valid email address."]
          = loaded ([] ++ [VString text]).
Proof.
  assert (H : call (checkDataType (VString "EMAIL") (VString "a@b")) []
              = (Normal false,
                 loaded [VString "must be a valid email address."]))
    by (vm_compute; reflexivity).
  split; [ exact H | ].
  exact (failing_type_check_pushes_the_message_of_the_tag
           (VString "EMAIL") (VString "a@b") [] H).
Defined.

End Messages_examples.

(** ** The strings the EMAIL rule accepts *)

Module EmailFacts.
Import JS RegExp Validations Spec Forms RegExpFacts ChainFacts FormFacts.

Unset Implicit Arguments.

Local Open Scope list_scope.

(** *** [split] and [join] *)






(** *** Labels with dots between them *)









Set Implicit Arguments.
End EmailFacts.

(** ** The EMAIL rule, and integers as decimal numbers *)

Section EmailRule.
Context {host : Host}.



(** X18.  The INT and the REAL rule disagree on white space.  A value the
    INT rule accepts is accepted by the REAL rule exactly when its string
    form is digits only, with no white space before or after. *)
Theorem integer_is_decimal_only_without_white_space :
  forall (v : value) (errs : list value),
    is_blank v = false ->
    call (checkDataType (VString "INT") v) errs
    = (Normal true, loaded errs) ->
    call (checkDataType (VString "REAL") v) errs
    = if forallb is_digit (str (ToString v))
      then (Normal true, loaded errs)
      else (Normal false,
            loaded (errs ++ [VString "must be a decimal number."])).
Proof.
  intros v errs Hb Hi.
  rewrite (checkDataType_by (VString "INT") v errs Hb (type_rule_int v))
    in Hi.
  destruct (Forms.int_form (ToString v)) eqn:F; [ | discriminate ].
  rewrite (checkDataType_by (VString "REAL") v errs Hb (type_rule_real v)).
  now rewrite (FormFacts.int_form_real_form (ToString v) F).
Qed.

End EmailRule.

Section EmailRule_examples.
#[local] Existing Instance example_host.


Lemma integer_is_decimal_only_without_white_space_witness :
  is_blank (VString "12 ") = false
  /\ call (checkDataType (VString "INT") (VString "12 ")) []
     = (Normal true, loaded [])
  /\ call (checkDataType (VString "REAL") (VString "12 ")) []
     = (Normal false, loaded [VString "must be a decimal number."]).
Proof.
  split; [ reflexivity | ]. split; [ reflexivity | ].
  exact (@integer_is_decimal_only_without_white_space _ (VString "12 ") []
           eq_refl eq_refl).
Defined.

End EmailRule_examples.

(** ** Restrictions that go together *)

Section Together.
Context {host : Host}.



(** X20.  For a string or an array, the [length] restriction decides as
    [minLength] and [maxLength] with the same threshold do together,
    whatever the threshold is. *)
Theorem exact_length_is_min_and_max_length :
  forall (t v : value) (len : nat) (errs : list value),
    Forms.count v = Some len ->
    fst (call (checkRestrictions [("length", t)] v) errs)
    = fst (call (checkRestrictions [("minLength", t); ("maxLength", t)] v)
             errs).
Proof.
  intros t v len errs Hc. destruct (is_blank v) eqn:Hb.
  { unfold call, checkRestrictions. now rewrite Hb. }
  rewrite !checkRestrictions_loaded by (apply orb_true_r).
  rewrite Hb. cbn [orb fst keys map forallb].
  rewrite !verdict_passes by discriminate.
  cbn [lookup String.eqb Ascii.eqb Bool.eqb or_undefined].
  unfold passes. cbn [String.eqb Ascii.eqb Bool.eqb].
  unfold loose_eq_number, loose_ge_number, loose_le_number.
  rewrite (RestrictionFacts.get_length_count v len Hc).
  rewrite NumberFacts.eq_le_ge, !andb_true_r.
  f_equal. apply andb_comm.
Qed.

End Together.

Section Together_examples.
#[local] Existing Instance example_host.


Lemma exact_length_is_min_and_max_length_witness :
  Forms.count (VArray [VString "a"; VString "b"]) = Some 2
  /\ fst (call (checkRestrictions [("length", VString "2")]
                  (VArray [VString "a"; VString "b"])) [])
     = Normal true
  /\ fst (call (checkRestrictions
                  [("minLength", VString "2"); ("maxLength", VString "2")]
                  (VArray [VString "a"; VString "b"])) [])
     = Normal true.
Proof.
  split; [ reflexivity | ]. split; [ reflexivity | ].
  rewrite <- (@exact_length_is_min_and_max_length _ (VString "2")
                (VArray [VString "a"; VString "b"]) 2 [] eq_refl).
  reflexivity.
Defined.

End Together_examples.

(** ** The strings the URL rule accepts *)

Module UrlFacts.
Import JS RegExp Validations Spec Forms RegExpFacts ChainFacts FormFacts.

Unset Implicit Arguments.

Local Open Scope list_scope.







Lemma starts_with_prefix (p t : chars) : starts_with p (p ++ t) = true.
Proof.
  induction p as [| a p IH]; [ reflexivity | ].
  cbn. now rewrite Ascii.eqb_refl.
Qed.








Set Implicit Arguments.
End UrlFacts.

(** ** The URL rule *)

Section UrlRule.
Context {host : Host}.



End UrlRule.

Section UrlRule_examples.
#[local] Existing Instance example_host.


End UrlRule_examples.
